(** * XLA IFRT/PjRt: serialization of IoCallablePrograms, ahead-of-time
      compilation and the profiler's plugin registration

    A shallow embedding of

    - [xla/python/ifrt/io_callable_program_serdes.cc]: the two [SerDes]
      classes [IoCallableProgramSerDes] and [IoCallableCompileOptionsSerDes];
    - [xla/python/profiler.cc]: [FindProfilerApi] and the binding
      [register_plugin_profiler];
    - [xla/pjrt/gpu/se_gpu_pjrt_compiler_aot_test.cc]: [ValidateResult] and
      the test [SuccessLoadFromSerializedExecutable].

    A [std::string] is a [string]; an [absl::StatusOr<T>] is [StatusOr T];
    a [std::vector] is a [list]; a possibly null [std::unique_ptr] is an
    [option]. *)

From Stdlib Require Import String Ascii List ZArith NArith Lia Bool.
Import ListNotations.

Local Open Scope string_scope.
Local Open Scope list_scope.

(** ** Status values *)

(** The error taxonomy of the design document. *)
Inductive ErrorKind : Type :=
| KindNotRegistered
| MalformedPayload
| InvalidOptions
| UnresolvedDevice
| UnsupportedOp
| TargetMismatch
| TargetIncompatible
| ArgumentMismatch
| ExecutionError
| InternalCompilerError.

(** A logical device id ([DeviceId]). *)
Definition DeviceId : Type := Z.

(** A non-OK [absl::Status].  The serdes code itself builds only
    [absl::InvalidArgumentError]; the device resolution it calls fails, as
    the design document has it, with [UnresolvedDevice] (here with the id
    that has no resolution). *)
Inductive Status : Type :=
| InvalidArgumentError (message : string)
| UnresolvedDeviceError (device_id : DeviceId).

(** The taxonomy's name for a status: an invalid-argument status of a
    deserializer is the design document's [MalformedPayload]. *)
Definition error_kind (s : Status) : ErrorKind :=
  match s with
  | InvalidArgumentError _ => MalformedPayload
  | UnresolvedDeviceError _ => UnresolvedDevice
  end.

Inductive StatusOr (A : Type) : Type :=
| Ok (value : A)
| Err (status : Status).
Arguments Ok {A} value.
Arguments Err {A} status.

Definition bind {A B : Type} (r : StatusOr A) (k : A -> StatusOr B) : StatusOr B :=
  match r with
  | Ok a => k a
  | Err s => Err s
  end.

Declare Scope statusor_scope.
Delimit Scope statusor_scope with statusor.
(** [TF_ASSIGN_OR_RETURN(x, e); k] *)
Notation "x <- e ;; k" := (bind e (fun x => k))
  (at level 61, e at next level, right associativity) : statusor_scope.
Local Open Scope statusor_scope.

(** How a call that starts with an [llvm::cast<T>] ends: it returns a
    [StatusOr]; or the assertion of the cast fails and the function hands
    nothing back to its caller, neither a value nor a [Status]
    ([CastAssertion]); or it uses a pointer that the unchecked cast of a
    build without assertions let through, and its behaviour is undefined
    ([UndefinedBehaviour]). *)
Inductive Outcome (A : Type) : Type :=
| Returns (result : StatusOr A)
| CastAssertion
| UndefinedBehaviour.
Arguments Returns {A} result.
Arguments CastAssertion {A}.
Arguments UndefinedBehaviour {A}.

(** What [llvm::cast<T>] gives.  It checks the dynamic type of its argument
    with an [assert], and then converts the pointer with a [static_cast].
    For an object of type [T] it gives the pointer to it.  For a null
    pointer or an object of another type the assertion fails; in a build
    that defines [NDEBUG] there is no assertion, and the cast gives a
    pointer that must not be used as a [T]. *)
Inductive Cast (A : Type) : Type :=
| Points (object : A)
| Dangles
| Asserts.
Arguments Points {A} object.
Arguments Dangles {A}.
Arguments Asserts {A}.

(** ** Wire messages *)

(** Element types and shapes travel as tags and dimension lists. *)
Definition DType : Type := N.
Definition Shape : Type := list Z.

(** Modelled from the spec: the encoded device list, the logical ids of the
    devices in order. *)
Record DeviceListProto : Type := {
  device_ids : list DeviceId
}.

(** Modelled from the spec: the nested encoding of an array spec, its
    element type, shape and device assignment. *)
Record ArraySpecProto : Type := {
  proto_dtype : DType;
  proto_shape : Shape;
  proto_sharding : DeviceListProto
}.

(** [IoCallableProgramProto], with the fields that [Serialize] sets and
    [Deserialize] reads. *)
Record IoCallableProgramProto : Type := {
  proto_type : string;
  proto_name : string;
  proto_serialized_program_text : string;
  proto_devices : DeviceListProto;
  proto_input_specs : list ArraySpecProto;
  proto_output_specs : list ArraySpecProto
}.

(** Every logical device id a program message mentions, in the order in
    which [Deserialize] resolves them. *)
Definition referenced_device_ids (proto : IoCallableProgramProto) : list DeviceId :=
  device_ids (proto_devices proto)
  ++ flat_map (fun s => device_ids (proto_sharding s)) (proto_input_specs proto)
  ++ flat_map (fun s => device_ids (proto_sharding s)) (proto_output_specs proto).

(** ** The serdes of [IoCallableProgram] and [IoCallableCompileOptions] *)

Section IoCallableProgramSerDes.

(** Whether the build defines [NDEBUG], which compiles the assertions of
    [llvm::cast] out. *)
Variable NDEBUG : bool.

(** A device handle ([Device*]) and its logical id ([Device::Id()]). *)
Variable Device : Type.
Variable Id : Device -> DeviceId.

(** The generated message class: [SerializeAsString] and
    [ParseFromString] ([None] when parsing fails). *)
Variable SerializeAsString : IoCallableProgramProto -> string.
Variable ParseFromString : string -> option IoCallableProgramProto.

(** The device-resolution capability carried by the options. *)
Definition LookupDeviceFunc : Type := DeviceId -> option Device.

Definition DeviceList : Type := list Device.

(** Modelled from the spec: [DeviceList::ToProto] (xla/python/ifrt/device.cc
    is not among the sources); the list is encoded as the logical ids of
    its devices, in order. *)
Definition DeviceList_ToProto (devices : DeviceList) : DeviceListProto :=
  {| device_ids := map Id devices |}.

(** Modelled from the spec: [DeviceList::FromProto]; it resolves the
    encoded ids in order with the device-resolution capability and fails
    with [UnresolvedDevice] at the first id that has no resolution. *)
Fixpoint resolve_devices (lookup_device : LookupDeviceFunc)
         (ids : list DeviceId) : StatusOr DeviceList :=
  match ids with
  | [] => Ok []
  | id :: rest =>
      match lookup_device id with
      | None => Err (UnresolvedDeviceError id)
      | Some device =>
          devices <- resolve_devices lookup_device rest ;;
          Ok (device :: devices)
      end
  end.

Definition DeviceList_FromProto (lookup_device : LookupDeviceFunc)
           (proto : DeviceListProto) : StatusOr DeviceList :=
  resolve_devices lookup_device (device_ids proto).

(** Modelled from the spec: an array spec, with its shape, its element
    type and the device assignment of its sharding. *)
Record ArraySpec : Type := {
  dtype : DType;
  shape : Shape;
  sharding : DeviceList
}.

(** Modelled from the spec: [ArraySpec::ToProto] (array_spec.cc is not
    among the sources), the nested structured encoding of a spec. *)
Definition ArraySpec_ToProto (spec : ArraySpec) : StatusOr ArraySpecProto :=
  Ok {| proto_dtype := dtype spec;
        proto_shape := shape spec;
        proto_sharding := DeviceList_ToProto (sharding spec) |}.

(** Modelled from the spec: [ArraySpec::FromProto], which reconstructs a
    spec using the same resolution capability. *)
Definition ArraySpec_FromProto (lookup_device : LookupDeviceFunc)
           (proto : ArraySpecProto) : StatusOr ArraySpec :=
  devices <- DeviceList_FromProto lookup_device (proto_sharding proto) ;;
  Ok {| dtype := proto_dtype proto;
        shape := proto_shape proto;
        sharding := devices |}.

(** [IoCallableProgram], with the members that [Serialize] reads and
    [Deserialize] constructs. *)
Record IoCallableProgram : Type := {
  type : string;
  name : string;
  serialized_program_text : string;
  devices : DeviceList;
  input_specs : list ArraySpec;
  output_specs : list ArraySpec
}.

(** [IoCallableCompileOptions] has no members. *)
Inductive IoCallableCompileOptions : Type :=
| MakeIoCallableCompileOptions.

(** The objects behind a [Serializable&], by dynamic type. *)
Inductive Serializable : Type :=
| AnIoCallableProgram (program : IoCallableProgram)
| AnIoCallableCompileOptions (options : IoCallableCompileOptions)
| OtherSerializable (class_name : string).

(** The objects behind a [DeserializeOptions*], by dynamic type. *)
Inductive DeserializeOptions : Type :=
| DeserializeProgramOptions (lookup_device : LookupDeviceFunc)
| OtherDeserializeOptions (class_name : string).

(** [llvm::cast<IoCallableProgram>(serializable)] *)
Definition cast_IoCallableProgram (serializable : Serializable)
  : Cast IoCallableProgram :=
  match serializable with
  | AnIoCallableProgram program => Points program
  | _ => if NDEBUG then Dangles else Asserts
  end.

(** [llvm::cast<DeserializeProgramOptions>(options.get())], as a pointer
    to the options' members; a null pointer is no
    [DeserializeProgramOptions] either. *)
Definition cast_DeserializeProgramOptions (options : option DeserializeOptions)
  : Cast LookupDeviceFunc :=
  match options with
  | Some (DeserializeProgramOptions lookup_device) => Points lookup_device
  | _ => if NDEBUG then Dangles else Asserts
  end.

(** A serializer/deserializer pair, the interface [SerDes]. *)
Record SerDes : Type := {
  type_name : string;
  Serialize : Serializable -> Outcome string;
  Deserialize : string -> option DeserializeOptions -> Outcome Serializable
}.

(** The loops of [Serialize]: each spec of [specs], in order, is converted
    with [ToProto] and added at the end of the repeated field, whose
    content so far is [added]; the first failing conversion is returned. *)
Fixpoint add_specs (specs : list ArraySpec) (added : list ArraySpecProto)
  : StatusOr (list ArraySpecProto) :=
  match specs with
  | [] => Ok added
  | spec :: rest =>
      spec_proto <- ArraySpec_ToProto spec ;;
      add_specs rest (added ++ [spec_proto])
  end.

(** The loops of [Deserialize]: each message of [protos], in order, is
    converted with [ArraySpec::FromProto] and pushed at the back of the
    vector [specs]; the first failing conversion is returned. *)
Fixpoint push_back_specs (lookup_device : LookupDeviceFunc)
         (protos : list ArraySpecProto) (specs : list ArraySpec)
  : StatusOr (list ArraySpec) :=
  match protos with
  | [] => Ok specs
  | spec_proto :: rest =>
      spec <- ArraySpec_FromProto lookup_device spec_proto ;;
      push_back_specs lookup_device rest (specs ++ [spec])
  end.


(** [IoCallableProgramSerDes::type_name] *)
Definition IoCallableProgramSerDes_type_name : string :=
  "xla::ifrt::IoCallableProgram".

(** [IoCallableProgramSerDes::Serialize] *)
Definition IoCallableProgramSerDes_Serialize (serializable : Serializable)
  : Outcome string :=
  match cast_IoCallableProgram serializable with
  | Asserts => CastAssertion
  | Dangles => UndefinedBehaviour
  | Points program =>
      Returns (
        added_input_specs <- add_specs (input_specs program) [] ;;
        added_output_specs <- add_specs (output_specs program) [] ;;
        Ok (SerializeAsString
              {| proto_type := type program;
                 proto_name := name program;
                 proto_serialized_program_text := serialized_program_text program;
                 proto_devices := DeviceList_ToProto (devices program);
                 proto_input_specs := added_input_specs;
                 proto_output_specs := added_output_specs |}))
  end.

(** [IoCallableProgramSerDes::Deserialize].  The options are used for the
    first time after the payload has been parsed, in
    [deserialize_program_options->lookup_device]. *)
Definition IoCallableProgramSerDes_Deserialize (serialized : string)
           (options : option DeserializeOptions) : Outcome Serializable :=
  match cast_DeserializeProgramOptions options with
  | Asserts => CastAssertion
  | deserialize_program_options =>
      match ParseFromString serialized with
      | None =>
          Returns (Err (InvalidArgumentError
                          "Failed to parse serialized IoCallableProgramProto"))
      | Some proto =>
          match deserialize_program_options with
          | Points lookup_device =>
              Returns (
                devices <- DeviceList_FromProto lookup_device (proto_devices proto) ;;
                input_specs <- push_back_specs lookup_device (proto_input_specs proto) [] ;;
                output_specs <- push_back_specs lookup_device (proto_output_specs proto) [] ;;
                Ok (AnIoCallableProgram
                      {| type := proto_type proto;
                         name := proto_name proto;
                         serialized_program_text := proto_serialized_program_text proto;
                         devices := devices;
                         input_specs := input_specs;
                         output_specs := output_specs |}))
          | _ => UndefinedBehaviour
          end
      end
  end.

Definition IoCallableProgramSerDes : SerDes :=
  {| type_name := IoCallableProgramSerDes_type_name;
     Serialize := IoCallableProgramSerDes_Serialize;
     Deserialize := IoCallableProgramSerDes_Deserialize |}.

(** [std::string::empty] *)
Definition empty (s : string) : bool :=
  match s with
  | EmptyString => true
  | String _ _ => false
  end.

(** [IoCallableCompileOptionsSerDes::type_name] *)
Definition IoCallableCompileOptionsSerDes_type_name : string :=
  "xla::ifrt::IoCallableCompileOptions".

(** [IoCallableCompileOptionsSerDes::Serialize] *)
Definition IoCallableCompileOptionsSerDes_Serialize (serializable : Serializable)
  : Outcome string :=
  Returns (Ok "").

(** [IoCallableCompileOptionsSerDes::Deserialize] *)
Definition IoCallableCompileOptionsSerDes_Deserialize (serialized : string)
           (options : option DeserializeOptions) : Outcome Serializable :=
  if negb (empty serialized) then
    Returns (Err (InvalidArgumentError
      ("Invalid serialized IoCallableCompileOptions; a serialized "
       ++ "IoCallableCompileOptions is expected to be an empty string")))
  else
    Returns (Ok (AnIoCallableCompileOptions MakeIoCallableCompileOptions)).

Definition IoCallableCompileOptionsSerDes : SerDes :=
  {| type_name := IoCallableCompileOptionsSerDes_type_name;
     Serialize := IoCallableCompileOptionsSerDes_Serialize;
     Deserialize := IoCallableCompileOptionsSerDes_Deserialize |}.

(** The first of the ids [ids] that the capability does not resolve. *)
Definition first_unresolved (lookup_device : LookupDeviceFunc)
           (ids : list DeviceId) : option DeviceId :=
  find (fun id => match lookup_device id with
                  | None => true
                  | Some _ => false
                  end) ids.

(** The devices [devices] are the resolutions of the ids [ids], one by
    one. *)
Definition resolved_as (lookup_device : LookupDeviceFunc)
           (ids : list DeviceId) (devices : DeviceList) : Prop :=
  Forall2 (fun id device => lookup_device id = Some device) ids devices.

(** The spec [spec] is the message [proto] with its device ids resolved. *)
Definition spec_resolved_as (lookup_device : LookupDeviceFunc)
           (proto : ArraySpecProto) (spec : ArraySpec) : Prop :=
  dtype spec = proto_dtype proto
  /\ shape spec = proto_shape proto
  /\ resolved_as lookup_device (device_ids (proto_sharding proto)) (sharding spec).

(** The devices a program refers to: its device list and the device
    assignment of every input and output spec. *)
Definition program_devices (program : IoCallableProgram) : list Device :=
  devices program
  ++ flat_map sharding (input_specs program)
  ++ flat_map sharding (output_specs program).

(** Options are consistent with a program's device references when the
    capability resolves the logical id of each of its devices to that
    device. *)
Definition consistent_options (lookup_device : LookupDeviceFunc)
           (program : IoCallableProgram) : Prop :=
  forall device, In device (program_devices program) ->
                 lookup_device (Id device) = Some device.

End IoCallableProgramSerDes.

Arguments DeserializeProgramOptions {Device} lookup_device.
Arguments OtherDeserializeOptions {Device} class_name.
Arguments AnIoCallableProgram {Device} program.
Arguments AnIoCallableCompileOptions {Device} options.
Arguments OtherSerializable {Device} class_name.
Arguments IoCallableProgramSerDes_Serialize NDEBUG {Device} Id SerializeAsString serializable.
Arguments IoCallableProgramSerDes_Deserialize NDEBUG {Device} ParseFromString serialized options.
Arguments IoCallableCompileOptionsSerDes_Serialize {Device} serializable.
Arguments IoCallableCompileOptionsSerDes_Deserialize {Device} serialized options.
Arguments IoCallableProgramSerDes NDEBUG {Device} Id SerializeAsString ParseFromString.
Arguments IoCallableCompileOptionsSerDes {Device}.
Arguments type_name {Device} s.
Arguments Serialize {Device} s serializable.
Arguments Deserialize {Device} s serialized options.
Arguments first_unresolved {Device} lookup_device ids.
Arguments resolved_as {Device} lookup_device ids devices.
Arguments spec_resolved_as {Device} lookup_device proto spec.
Arguments program_devices {Device} program.
Arguments consistent_options {Device} Id lookup_device program.
Arguments type {Device} i.
Arguments name {Device} i.
Arguments serialized_program_text {Device} i.
Arguments devices {Device} i.
Arguments input_specs {Device} i.
Arguments output_specs {Device} i.
Arguments dtype {Device} a.
Arguments shape {Device} a.
Arguments sharding {Device} a.
Arguments Build_ArraySpec {Device} dtype shape sharding.
Arguments Build_IoCallableProgram {Device} type name serialized_program_text devices input_specs output_specs.
Arguments resolve_devices {Device} lookup_device ids.
Arguments DeviceList_FromProto {Device} lookup_device proto.
Arguments DeviceList_ToProto {Device} Id devices.
Arguments ArraySpec_FromProto {Device} lookup_device proto.
Arguments ArraySpec_ToProto {Device} Id spec.
Arguments add_specs {Device} Id specs added.
Arguments push_back_specs {Device} lookup_device protos specs.
Arguments cast_IoCallableProgram NDEBUG {Device} serializable.
Arguments cast_DeserializeProgramOptions NDEBUG {Device} options.

(** ** A reference wire codec

    The message class generated for [IoCallableProgramProto] is a parameter
    of the serdes above.  To run the serdes on concrete inputs the
    parameter is instantiated with this codec: a field-numbered binary
    encoding with base-128 varints, zig-zag signed integers,
    length-prefixed strings and count-prefixed repeated fields. *)

Definition wire : Type := list ascii.

Record Codec (A : Type) : Type := {
  enc : A -> wire;
  dec : wire -> option (A * wire)
}.
Arguments enc {A} c a.
Arguments dec {A} c bytes.

(** Decoding what was encoded gives the value back and leaves the rest of
    the input untouched. *)
Definition Lawful {A : Type} (c : Codec A) : Prop :=
  forall (a : A) (rest : wire), dec c (enc c a ++ rest) = Some (a, rest).

Fixpoint put_varint_fuel (fuel : nat) (n : N) : wire :=
  match fuel with
  | O => [ascii_of_N n]
  | S fuel' =>
      if (n <? 128)%N then [ascii_of_N n]
      else ascii_of_N (128 + n mod 128) :: put_varint_fuel fuel' (n / 128)
  end.

Definition put_varint (n : N) : wire :=
  put_varint_fuel (N.to_nat (N.size n)) n.

Fixpoint get_varint (bytes : wire) : option (N * wire) :=
  match bytes with
  | [] => None
  | b :: rest =>
      let v := N_of_ascii b in
      if (v <? 128)%N then Some (v, rest)
      else
        match get_varint rest with
        | Some (high, rest') => Some ((v - 128) + 128 * high, rest')%N
        | None => None
        end
  end.

Definition varint : Codec N :=
  {| enc := put_varint; dec := get_varint |}.

(** A codec for [A] from one for [B], through a pair of conversions. *)
Definition via {A B : Type} (to : A -> B) (from : B -> A) (c : Codec B) : Codec A :=
  {| enc := fun a => enc c (to a);
     dec := fun bytes =>
              match dec c bytes with
              | Some (b, rest) => Some (from b, rest)
              | None => None
              end |}.

Definition zigzag (z : Z) : N :=
  if (z <? 0)%Z then Z.to_N (- 2 * z - 1) else Z.to_N (2 * z).

Definition unzigzag (n : N) : Z :=
  if N.even n then Z.of_N (n / 2) else (- Z.of_N ((n + 1) / 2))%Z.

Definition sint : Codec Z := via zigzag unzigzag varint.

(** Two values, one after the other. *)
Definition both {A B : Type} (ca : Codec A) (cb : Codec B) : Codec (A * B) :=
  {| enc := fun ab => enc ca (fst ab) ++ enc cb (snd ab);
     dec := fun bytes =>
              match dec ca bytes with
              | Some (a, rest) =>
                  match dec cb rest with
                  | Some (b, rest') => Some ((a, b), rest')
                  | None => None
                  end
              | None => None
              end |}.

Fixpoint get_many {A : Type} (c : Codec A) (count : nat) (bytes : wire)
  : option (list A * wire) :=
  match count with
  | O => Some ([], bytes)
  | S count' =>
      match dec c bytes with
      | Some (a, rest) =>
          match get_many c count' rest with
          | Some (l, rest') => Some (a :: l, rest')
          | None => None
          end
      | None => None
      end
  end.

(** A repeated field: the number of elements, then the elements. *)
Definition repeated {A : Type} (c : Codec A) : Codec (list A) :=
  {| enc := fun l => put_varint (N.of_nat (length l)) ++ flat_map (enc c) l;
     dec := fun bytes =>
              match get_varint bytes with
              | Some (count, rest) => get_many c (N.to_nat count) rest
              | None => None
              end |}.

(** A string: its length, then its characters. *)
Definition text : Codec string :=
  {| enc := fun s => put_varint (N.of_nat (String.length s)) ++ list_ascii_of_string s;
     dec := fun bytes =>
              match get_varint bytes with
              | Some (len, rest) =>
                  if (N.of_nat (length rest) <? len)%N then None
                  else Some (string_of_list_ascii (firstn (N.to_nat len) rest),
                             skipn (N.to_nat len) rest)
              | None => None
              end |}.

(** A field: its number (below 256), then its value. *)
Definition field {A : Type} (number : N) (c : Codec A) : Codec A :=
  {| enc := fun a => ascii_of_N number :: enc c a;
     dec := fun bytes =>
              match bytes with
              | b :: rest => if (N_of_ascii b =? number)%N then dec c rest else None
              | [] => None
              end |}.

Definition DeviceListProto_codec : Codec DeviceListProto :=
  via device_ids Build_DeviceListProto (field 1 (repeated sint)).

Definition ArraySpecProto_codec : Codec ArraySpecProto :=
  via (fun p => (proto_dtype p, (proto_shape p, proto_sharding p)))
      (fun t => Build_ArraySpecProto (fst t) (fst (snd t)) (snd (snd t)))
      (both (field 1 varint)
            (both (field 2 (repeated sint)) (field 3 DeviceListProto_codec))).

Definition IoCallableProgramProto_codec : Codec IoCallableProgramProto :=
  via (fun p => (proto_type p, (proto_name p, (proto_serialized_program_text p,
                (proto_devices p, (proto_input_specs p, proto_output_specs p))))))
      (fun t => Build_IoCallableProgramProto
                  (fst t) (fst (snd t)) (fst (snd (snd t)))
                  (fst (snd (snd (snd t))))
                  (fst (snd (snd (snd (snd t)))))
                  (snd (snd (snd (snd (snd t))))))
      (both (field 1 text)
      (both (field 2 text)
      (both (field 3 text)
      (both (field 4 DeviceListProto_codec)
      (both (field 5 (repeated ArraySpecProto_codec))
            (field 6 (repeated ArraySpecProto_codec))))))).

Definition reference_SerializeAsString (proto : IoCallableProgramProto) : string :=
  string_of_list_ascii (enc IoCallableProgramProto_codec proto).

(** Parsing fails unless the whole input is one well-formed message. *)
Definition reference_ParseFromString (serialized : string)
  : option IoCallableProgramProto :=
  match dec IoCallableProgramProto_codec (list_ascii_of_string serialized) with
  | Some (proto, []) => Some proto
  | _ => None
  end.

(** Concrete device handles for running the serdes: a handle is the logical
    id of the device and the address of its object in the client. *)
Record DeviceHandle : Type := {
  handle_id : DeviceId;
  handle_address : N
}.

Definition DeviceHandle_eqb (a b : DeviceHandle) : bool :=
  Z.eqb (handle_id a) (handle_id b) && N.eqb (handle_address a) (handle_address b).

(** The capability of a client that owns the devices [known]: the first
    device with the requested id. *)
Definition lookup_in (known : list DeviceHandle) : LookupDeviceFunc DeviceHandle :=
  fun id => find (fun device => Z.eqb (handle_id device) id) known.

(** ** The profiler's plugin registration (xla/python/profiler.cc) *)

Module Profiler.

(** The address of a plugin's [PLUGIN_Profiler_Api] table. *)
Definition PLUGIN_Profiler_Api : Type := N.

(** A node of the extension chain of a [PJRT_Api], by its [type] tag: a
    [PJRT_Profiler_Extension] with its [profiler_api] pointer (possibly
    null), or an extension of another type, whose tag is not
    [PJRT_Extension_Type_Profiler]. *)
Inductive PJRT_Extension_Base : Type :=
| PJRT_Profiler_Extension (profiler_api : option PLUGIN_Profiler_Api)
| PJRT_Other_Extension (type : N).

(** [PJRT_Api]: [extension_start] heads the chain linked by [next]; the
    chain is the list of its nodes and ends with the null pointer. *)
Record PJRT_Api : Type := {
  extension_start : list PJRT_Extension_Base
}.

(** The loop and the return of [FindProfilerApi], from the node [next]. *)
Fixpoint FindProfilerApi_from (next : list PJRT_Extension_Base)
  : option PLUGIN_Profiler_Api :=
  match next with
  | [] => None
  | PJRT_Profiler_Extension profiler_api :: _ => profiler_api
  | PJRT_Other_Extension _ :: next' => FindProfilerApi_from next'
  end.

(** [FindProfilerApi] *)
Definition FindProfilerApi (pjrt_api : PJRT_Api) : option PLUGIN_Profiler_Api :=
  FindProfilerApi_from (extension_start pjrt_api).

(** A Python capsule ([nb::capsule]): its name, a C string or the null
    pointer for a capsule created without a name, and the object its data
    pointer refers to. *)
Record capsule : Type := {
  name : option string;
  data : PJRT_Api
}.

(** The factory [create_func] that [register_plugin_profiler] builds: a
    closure which captures [profiler_api] and makes a [PluginTracer] from
    it and the options it is called with. *)
Inductive ProfilerFactory : Type :=
| PluginTracerFactory (profiler_api : option PLUGIN_Profiler_Api).

(** What the binding can observe and change: the capsules whose data
    pointer has been read, and the process-wide list of profiler
    factories, both in order of occurrence. *)
Record World : Type := {
  data_reads : list capsule;
  profiler_factories : list ProfilerFactory
}.

Inductive Exception : Type :=
| XlaRuntimeError (what : string).

(** How a call ends: it returns, or an exception leaves it, or it runs into
    undefined behaviour (in practice the process crashes). *)
Inductive Completion (A : Type) : Type :=
| Returned (value : A)
| Thrown (exception : Exception)
| Undefined.
Arguments Returned {A} value.
Arguments Thrown {A} exception.
Arguments Undefined {A}.

(** Computations over the world that may throw. *)
Definition Eff (A : Type) : Type := World -> Completion A * World.

Definition ret {A : Type} (a : A) : Eff A := fun w => (Returned a, w).

Definition throw {A : Type} (e : Exception) : Eff A := fun w => (Thrown e, w).

Definition seq {A B : Type} (m : Eff A) (k : A -> Eff B) : Eff B :=
  fun w =>
    match m w with
    | (Returned a, w') => k a w'
    | (Thrown e, w') => (Thrown e, w')
    | (Undefined, w') => (Undefined, w')
    end.

(** [std::string_view(s)] for a C string [s]: the length is taken with
    [strlen], which is undefined for the null pointer. *)
Definition string_view (s : option string) : Eff string :=
  fun w =>
    match s with
    | Some text => (Returned text, w)
    | None => (Undefined, w)
    end.

(** [c.data()] *)
Definition read_data (c : capsule) : Eff PJRT_Api :=
  fun w => (Returned (data c),
            {| data_reads := data_reads w ++ [c];
               profiler_factories := profiler_factories w |}).

(** [tsl::profiler::RegisterProfilerFactory] *)
Definition RegisterProfilerFactory (factory : ProfilerFactory) : Eff unit :=
  fun w => (Returned tt,
            {| data_reads := data_reads w;
               profiler_factories := profiler_factories w ++ [factory] |}).

(** The binding [register_plugin_profiler] of [BuildProfilerSubmodule]. *)
Definition register_plugin_profiler (c_api : capsule) : Eff unit :=
  seq (string_view (name c_api)) (fun name_view =>
  if negb (String.eqb name_view "pjrt_c_api") then
    throw (XlaRuntimeError
      "Argument to register_plugin_profiler was not a pjrt_c_api capsule.")
  else
    seq (read_data c_api) (fun pjrt_api =>
    let profiler_api := FindProfilerApi pjrt_api in
    let create_func := PluginTracerFactory profiler_api in
    RegisterProfilerFactory create_func)).

End Profiler.

(** ** Ahead-of-time compilation, loading and execution

    The test file se_gpu_pjrt_compiler_aot_test.cc drives
    [StreamExecutorGpuCompiler::Compile], [SerializeExecutable],
    [LoadSerialized] and [Execute], none of which is among the sources:
    they are modelled from the design document's contract (its sections 4.3
    and 4.4).  [ValidateResult] and the test body follow the test file. *)

Module Pjrt.

Inductive Result (A : Type) : Type :=
| Success (value : A)
| Failure (kind : ErrorKind).
Arguments Success {A} value.
Arguments Failure {A} kind.

Definition and_then {A B : Type} (r : Result A) (k : A -> Result B) : Result B :=
  match r with
  | Success a => k a
  | Failure e => Failure e
  end.

Fixpoint eqb_list {A : Type} (eqb : A -> A -> bool) (l1 l2 : list A) : bool :=
  match l1, l2 with
  | [], [] => true
  | a1 :: l1', a2 :: l2' => eqb a1 a2 && eqb_list eqb l1' l2'
  | _, _ => false
  end.

(** Modelled from the spec: a literal value, with its dimensions and its
    integer elements in row-major order. *)
Record Literal : Type := {
  dimensions : list Z;
  elements : list Z
}.

(** [LiteralUtil::CreateR0]: the scalar literal of a value. *)
Definition CreateR0 (value : Z) : Literal :=
  {| dimensions := []; elements := [value] |}.

(** [LiteralTestUtil::Equal] *)
Definition Literal_Equal (expected actual : Literal) : bool :=
  eqb_list Z.eqb (dimensions expected) (dimensions actual)
  && eqb_list Z.eqb (elements expected) (elements actual).

(** Modelled from the spec: source programs, as far as the test needs
    them; an entry computation whose root is an integer constant or one of
    its parameters. *)
Inductive HloInstruction : Type :=
| constant (value : Z)
| parameter (number : nat).

Record HloModule : Type := {
  module_name : string;
  entry_parameters : nat;
  ROOT : HloInstruction
}.

(** The module that the text [kProgram] denotes,
    [HloModule Computation
     ENTRY Computation() -> s32[] { ROOT result = s32[] constant(2) }];
    the MLIR text [mlir_str] denotes the same computation. *)
Definition kProgram : HloModule :=
  {| module_name := "Computation";
     entry_parameters := 0;
     ROOT := constant 2 |}.

(** Modelled from the spec: what a source program computes from its
    arguments, its outputs. *)
Definition evaluate (program : HloModule) (arguments : list Literal)
  : option (list Literal) :=
  if negb (Nat.eqb (length arguments) (entry_parameters program)) then None
  else
    match ROOT program with
    | constant value => Some [CreateR0 value]
    | parameter number =>
        match nth_error arguments number with
        | Some literal => Some [literal]
        | None => None
        end
    end.

(** Modelled from the spec: a target description, the immutable snapshot of
    a device's compilation-relevant properties (ISA, parameters of the
    memory hierarchy). *)
Record TargetDescription : Type := {
  isa : string;
  memory_hierarchy : list N
}.

Definition TargetDescription_eqb (a b : TargetDescription) : bool :=
  String.eqb (isa a) (isa b)
  && eqb_list N.eqb (memory_hierarchy a) (memory_hierarchy b).

(** Modelled from the spec: a live device, with the properties that can be
    captured from it and its mutable state. *)
Record LiveDevice : Type := {
  device_isa : string;
  device_memory_hierarchy : list N;
  device_state : list Z
}.

(** Modelled from the spec: [CaptureTargetDescription], a read-only probe of
    a live device. *)
Definition CaptureTargetDescription (live_device : LiveDevice) : TargetDescription :=
  {| isa := device_isa live_device;
     memory_hierarchy := device_memory_hierarchy live_device |}.

(** Modelled from the spec: a live client, with its default device
    ([default_stream_executor] in the test) and the other devices it
    owns. *)
Record Client : Type := {
  default_stream_executor : LiveDevice;
  other_devices : list LiveDevice
}.

Definition client_devices (client : Client) : list LiveDevice :=
  default_stream_executor client :: other_devices client.

(** [xla::CompileOptions], of which the test sets [target_config]. *)
Record CompileOptions : Type := {
  target_config : option TargetDescription
}.

(** Modelled from the spec: an executable owns the compiled machine code and
    its metadata, the target it was compiled for and the number of inputs
    the program declares. *)
Record Executable : Type := {
  executable_target : TargetDescription;
  machine_code : string;
  declared_inputs : nat
}.

(** Modelled from the spec: a loaded executable is an executable bound to
    the live devices of a client. *)
Record LoadedExecutable : Type := {
  loaded : Executable;
  bound_devices : list LiveDevice
}.

(** Modelled from the spec: a result handle, a buffer on a device with the
    literal it holds. *)
Record PjRtBuffer : Type := {
  held : Literal
}.

(** [PjRtBuffer::ToLiteralSync] *)
Definition ToLiteralSync (buffer : PjRtBuffer) : Result Literal :=
  Success (held buffer).

(** Modelled from the spec: the format/version tag of a serialized
    executable. *)
Definition kFormatVersion : N := 1.

Definition TargetDescription_codec : Codec TargetDescription :=
  via (fun t => (isa t, memory_hierarchy t))
      (fun p => Build_TargetDescription (fst p) (snd p))
      (both (field 1 text) (field 2 (repeated varint))).

Definition Executable_codec : Codec Executable :=
  via (fun e => (executable_target e, (machine_code e, N.of_nat (declared_inputs e))))
      (fun t => Build_Executable (fst t) (fst (snd t)) (N.to_nat (snd (snd t))))
      (both (field 2 TargetDescription_codec)
      (both (field 3 text) (field 4 varint))).

Definition versioned_codec : Codec (N * Executable) :=
  both (field 1 varint) Executable_codec.

(** Modelled from the spec: [Executable.SerializeExecutable], a
    self-contained byte sequence that starts with the format/version tag. *)
Definition SerializeExecutable (executable : Executable) : string :=
  string_of_list_ascii (enc versioned_codec (kFormatVersion, executable)).

(** Modelled from the spec: the bytes must parse as a serialized executable
    of a known version, else [MalformedPayload]. *)
Definition DeserializeExecutable (serialized : string) : Result Executable :=
  match dec versioned_codec (list_ascii_of_string serialized) with
  | Some ((version, executable), []) =>
      if N.eqb version kFormatVersion then Success executable
      else Failure MalformedPayload
  | _ => Failure MalformedPayload
  end.

(** Modelled from the spec: the artifact's captured target matches the
    capabilities of the client's live devices. *)
Definition target_matches (target : TargetDescription) (client : Client) : bool :=
  forallb (fun device => TargetDescription_eqb target (CaptureTargetDescription device))
          (client_devices client).

Record LoadOptions : Type := MakeLoadOptions { }.

(** Modelled from the spec: [Load] binds a compiled artifact to the live
    devices owned by the client, and fails with [TargetIncompatible] when
    the artifact's captured target does not match them. *)
Definition Load (executable : Executable) (load_options : LoadOptions)
           (client : Client) : Result LoadedExecutable :=
  if target_matches (executable_target executable) client then
    Success {| loaded := executable; bound_devices := client_devices client |}
  else Failure TargetIncompatible.

(** Modelled from the spec: [Load] from serialized bytes
    ([LoadSerialized]; the test passes no compile options). *)
Definition LoadSerialized (serialized : string) (options : option CompileOptions)
           (load_options : LoadOptions) (client : Client) : Result LoadedExecutable :=
  and_then (DeserializeExecutable serialized) (fun executable =>
  Load executable load_options client).

(** A failed assertion of a test: [ASSERT_*] and [TF_ASSERT_OK*] are fatal
    and leave the function, [EXPECT_*] is not. *)
Inductive TestFailure : Type :=
| Fatal (assertion : string)
| NonFatal (assertion : string).

(** [TF_ASSERT_OK_AND_ASSIGN(lhs, rexpr); rest]: a fatal failure unless
    [rexpr] is OK. *)
Definition TF_ASSERT_OK_AND_ASSIGN {A : Type} (lhs : string) (rexpr : Result A)
           (rest : A -> list TestFailure) : list TestFailure :=
  match rexpr with
  | Success value => rest value
  | Failure _ => [Fatal ("TF_ASSERT_OK_AND_ASSIGN(" ++ lhs ++ ")")]
  end.

(** [ValidateResult]: the failures it records; none when the result is
    valid. *)
Definition ValidateResult (result : list (list PjRtBuffer)) : list TestFailure :=
  if negb (Nat.eqb (length result) 1) then [Fatal "ASSERT_EQ(result.size(), 1)"]
  else
    match result with
    | [] => [Fatal "ASSERT_EQ(result.size(), 1)"]
    | result_buffers :: _ =>
        if negb (Nat.eqb (length result_buffers) 1) then
          [Fatal "ASSERT_EQ(result_buffers.size(), 1)"]
        else
          match result_buffers with
          | [] => [Fatal "ASSERT_EQ(result_buffers.size(), 1)"]
          | buffer :: _ =>
              TF_ASSERT_OK_AND_ASSIGN "result_literal" (ToLiteralSync buffer)
                (fun result_literal =>
                   if Literal_Equal (CreateR0 2) result_literal then []
                   else [NonFatal "EXPECT_TRUE(LiteralTestUtil::Equal)"])
          end
    end.

(** [GetXlaComputation]: the program text is represented by the module it
    denotes, which the computation wraps. *)
Definition GetXlaComputation (program : HloModule) : Result HloModule :=
  Success program.

(** Modelled from the spec: [GetTopologyDescription] of a client, the
    description of its target. *)
Definition GetTopologyDescription (client : Client) : Result TargetDescription :=
  Success (CaptureTargetDescription (default_stream_executor client)).

Section Backend.

(** The accelerator backend, an external collaborator: the lowering of
    [Compile], which fails with [UnsupportedOp], [TargetMismatch] or
    [InternalCompilerError], and the kernel dispatch of [Execute], which
    fails with [ExecutionError]. *)
Variable lower : CompileOptions -> HloModule -> TargetDescription -> Result string.
Variable dispatch : string -> list Literal -> Result (list Literal).

(** Modelled from the spec: [Compile(options, source_program,
    target_description, optional_client)]; the client may be absent. *)
Definition Compile (options : CompileOptions) (source_program : HloModule)
           (target_description : TargetDescription)
           (optional_client : option Client) : Result Executable :=
  and_then (lower options source_program target_description) (fun code =>
  Success {| executable_target := target_description;
             machine_code := code;
             declared_inputs := entry_parameters source_program |}).

(** Modelled from the spec: one replica's execution; a wrong number of
    arguments fails with [ArgumentMismatch], and a failure of the dispatch
    is returned as it is. *)
Definition execute_replica (executable : Executable) (arguments : list PjRtBuffer)
  : Result (list PjRtBuffer) :=
  if negb (Nat.eqb (length arguments) (declared_inputs executable)) then
    Failure ArgumentMismatch
  else
    and_then (dispatch (machine_code executable) (map held arguments)) (fun outputs =>
    Success (map Build_PjRtBuffer outputs)).

Fixpoint execute_replicas (executable : Executable)
         (argument_handles : list (list PjRtBuffer))
  : Result (list (list PjRtBuffer)) :=
  match argument_handles with
  | [] => Success []
  | arguments :: rest =>
      and_then (execute_replica executable arguments) (fun outputs =>
      and_then (execute_replicas executable rest) (fun results =>
      Success (outputs :: results)))
  end.

Record ExecuteOptions : Type := MakeExecuteOptions { }.

(** Modelled from the spec: [LoadedExecutable.Execute]; [argument_handles]
    has one list of arguments per replica, and the result has one outer
    entry per replica and one inner entry per output. *)
Definition Execute (loaded_executable : LoadedExecutable)
           (argument_handles : list (list PjRtBuffer))
           (run_options : ExecuteOptions) : Result (list (list PjRtBuffer)) :=
  execute_replicas (loaded loaded_executable) argument_handles.

(** The steps of the test [SuccessLoadFromSerializedExecutable] between
    the client and [ValidateResult], as one computation: compile with no
    client, serialize, load the bytes, execute with no arguments. *)
Definition compile_serialize_load_execute (se_client : Client)
  : Result (list (list PjRtBuffer)) :=
  let opts := {| target_config :=
                   Some (CaptureTargetDescription (default_stream_executor se_client)) |} in
  and_then (GetXlaComputation kProgram) (fun computation =>
  and_then (GetTopologyDescription se_client) (fun topology =>
  and_then (Compile opts computation topology None) (fun executable =>
  let serialized_executable := SerializeExecutable executable in
  and_then (LoadSerialized serialized_executable None MakeLoadOptions se_client)
           (fun loaded_executable =>
  Execute loaded_executable [[]] MakeExecuteOptions)))).

(** The test [SuccessLoadFromSerializedExecutable], given what
    [GetStreamExecutorGpuClient] returned. *)
Definition SuccessLoadFromSerializedExecutable (client : Result Client)
  : list TestFailure :=
  TF_ASSERT_OK_AND_ASSIGN "client" client (fun se_client =>
  let opts := {| target_config :=
                   Some (CaptureTargetDescription (default_stream_executor se_client)) |} in
  TF_ASSERT_OK_AND_ASSIGN "computation" (GetXlaComputation kProgram) (fun computation =>
  TF_ASSERT_OK_AND_ASSIGN "topology" (GetTopologyDescription se_client) (fun topology =>
  TF_ASSERT_OK_AND_ASSIGN "executable" (Compile opts computation topology None)
    (fun executable =>
  TF_ASSERT_OK_AND_ASSIGN "serialized_executable"
    (Success (SerializeExecutable executable)) (fun serialized_executable =>
  TF_ASSERT_OK_AND_ASSIGN "loaded_executable"
    (LoadSerialized serialized_executable None MakeLoadOptions se_client)
    (fun loaded_executable =>
  TF_ASSERT_OK_AND_ASSIGN "result"
    (Execute loaded_executable [[]] MakeExecuteOptions) (fun result =>
  ValidateResult result))))))).

(** The backend's contract with the source language: code lowered from a
    program computes what the program computes. *)
Definition backend_correct : Prop :=
  forall options program target code arguments outputs,
    lower options program target = Success code ->
    evaluate program arguments = Some outputs ->
    dispatch code arguments = Success outputs.

End Backend.

(** A reference backend for running the pipeline: the code of a program is
    the encoding of its root instruction. *)
Definition HloInstruction_codec : Codec HloInstruction :=
  via (fun i => match i with
                | constant value => (0%N, value)
                | parameter number => (1%N, Z.of_nat number)
                end)
      (fun p => if N.eqb (fst p) 0 then constant (snd p)
                else parameter (Z.to_nat (snd p)))
      (both varint sint).

Definition reference_lower (options : CompileOptions) (program : HloModule)
           (target : TargetDescription) : Result string :=
  Success (string_of_list_ascii (enc HloInstruction_codec (ROOT program))).

Definition reference_dispatch (code : string) (arguments : list Literal)
  : Result (list Literal) :=
  match dec HloInstruction_codec (list_ascii_of_string code) with
  | Some (constant value, []) => Success [CreateR0 value]
  | Some (parameter number, []) =>
      match nth_error arguments number with
      | Some literal => Success [literal]
      | None => Failure ExecutionError
      end
  | _ => Failure ExecutionError
  end.

End Pjrt.

(** ** Concrete inputs *)

Module Examples.

Definition device_A : DeviceHandle := {| handle_id := 0%Z; handle_address := 4096%N |}.
Definition device_B : DeviceHandle := {| handle_id := 1%Z; handle_address := 8192%N |}.

(** A program on the devices 0 and 1 with two inputs and one output. *)
Definition program : IoCallableProgram DeviceHandle :=
  {| type := "io_callable";
     name := "double_then_sum";
     serialized_program_text := "def f(x, y): return 2 * x + y";
     devices := [device_A; device_B];
     input_specs :=
       [ {| dtype := 4%N; shape := [2; 300]%Z; sharding := [device_A; device_B] |};
         {| dtype := 11%N; shape := [300]%Z; sharding := [device_B] |} ];
     output_specs :=
       [ {| dtype := 4%N; shape := []; sharding := [device_A] |} ] |}.

(** Its message. *)
Definition proto : IoCallableProgramProto :=
  {| proto_type := "io_callable";
     proto_name := "double_then_sum";
     proto_serialized_program_text := "def f(x, y): return 2 * x + y";
     proto_devices := {| device_ids := [0; 1]%Z |};
     proto_input_specs :=
       [ {| proto_dtype := 4%N; proto_shape := [2; 300]%Z;
            proto_sharding := {| device_ids := [0; 1]%Z |} |};
         {| proto_dtype := 11%N; proto_shape := [300]%Z;
            proto_sharding := {| device_ids := [1]%Z |} |} ];
     proto_output_specs :=
       [ {| proto_dtype := 4%N; proto_shape := [];
            proto_sharding := {| device_ids := [0]%Z |} |} ] |}.

Definition serialized : string := reference_SerializeAsString proto.

(** The serdes over the reference codec, in a build with assertions and in
    one without. *)
Definition serdes : SerDes DeviceHandle :=
  IoCallableProgramSerDes false handle_id
    reference_SerializeAsString reference_ParseFromString.

Definition release_serdes : SerDes DeviceHandle :=
  IoCallableProgramSerDes true handle_id
    reference_SerializeAsString reference_ParseFromString.

(** Options of a client that owns both devices, of one that owns only
    device 0, and options of another class. *)
Definition program_options : option (DeserializeOptions DeviceHandle) :=
  Some (DeserializeProgramOptions (lookup_in [device_A; device_B])).

Definition partial_options : option (DeserializeOptions DeviceHandle) :=
  Some (DeserializeProgramOptions (lookup_in [device_A])).

Definition sharding_options : option (DeserializeOptions DeviceHandle) :=
  Some (OtherDeserializeOptions "xla::ifrt::DeserializeShardingOptions").

(** A capsule that is not a PJRT C API capsule, a capsule without a name,
    and a world in which one plugin has registered before. *)
Definition nameless_capsule : Profiler.capsule :=
  {| Profiler.name := None;
     Profiler.data := {| Profiler.extension_start := [] |} |}.

Definition other_capsule : Profiler.capsule :=
  {| Profiler.name := Some "xla._CUSTOM_CALL_TARGET";
     Profiler.data := {| Profiler.extension_start := [] |} |}.

Definition pjrt_capsule : Profiler.capsule :=
  {| Profiler.name := Some "pjrt_c_api";
     Profiler.data :=
       {| Profiler.extension_start :=
            [Profiler.PJRT_Other_Extension 0%N;
             Profiler.PJRT_Profiler_Extension (Some 48879%N);
             Profiler.PJRT_Profiler_Extension None] |} |}.

Definition world : Profiler.World :=
  {| Profiler.data_reads := [pjrt_capsule];
     Profiler.profiler_factories := [Profiler.PluginTracerFactory (Some 48879%N)] |}.

(** A client with two GPUs of the same kind. *)
Definition gpu : Pjrt.LiveDevice :=
  {| Pjrt.device_isa := "sm_90";
     Pjrt.device_memory_hierarchy := [233472; 52428800]%N;
     Pjrt.device_state := [] |}.

Definition gpu_client : Pjrt.Client :=
  {| Pjrt.default_stream_executor := gpu; Pjrt.other_devices := [gpu] |}.

(** A client with a GPU of an older kind. *)
Definition older_gpu_client : Pjrt.Client :=
  {| Pjrt.default_stream_executor :=
       {| Pjrt.device_isa := "sm_70";
          Pjrt.device_memory_hierarchy := [98304; 6291456]%N;
          Pjrt.device_state := [] |};
     Pjrt.other_devices := [] |}.

(** The executable of [kProgram] for [gpu], from the reference backend. *)
Definition executable : Pjrt.Executable :=
  {| Pjrt.executable_target := Pjrt.CaptureTargetDescription gpu;
     Pjrt.machine_code :=
       string_of_list_ascii (enc Pjrt.HloInstruction_codec (Pjrt.ROOT Pjrt.kProgram));
     Pjrt.declared_inputs := 0 |}.

End Examples.

(** ** The TraceMe wrapper (xla/python/profiler.cc) *)

Module TraceMeWrapper.

(** A Python object as [EncodePyObject] sees it: a [bool], or an object of
    another type with the text that [str()] gives for it ([None] when
    [str()] raises). *)
Inductive PyObject : Type :=
| PyBool (value : bool)
| PyOther (str : option string).

(** [nb::kwargs]: the keyword names with their values, in the iteration
    order of the dict. *)
Definition kwargs : Type := list (string * PyObject).

(** [EncodePyObject]; [None] when building [nb::str(handle)] raises. *)
Definition EncodePyObject (handle : PyObject) : option string :=
  match handle with
  | PyBool value => Some (if value then "1" else "0")
  | PyOther str => str
  end.

(** [std::string::push_back] *)
Definition push_back (s : string) (c : ascii) : string :=
  s ++ String c "".

(** [s.back() = c] on a string that is not empty. *)
Fixpoint set_back (s : string) (c : ascii) : string :=
  match s with
  | EmptyString => EmptyString
  | String a rest =>
      match rest with
      | EmptyString => String c EmptyString
      | String _ _ => String a (set_back rest c)
      end
  end.

(** The loop of [AppendMetadata]: for each keyword, in order,
    [absl::StrAppend(name, key, "=", EncodePyObject(value), ",")]. *)
Fixpoint AppendMetadata_loop (name : string) (kw : kwargs) : option string :=
  match kw with
  | [] => Some name
  | (key, value) :: rest =>
      match EncodePyObject value with
      | None => None
      | Some encoded =>
          AppendMetadata_loop (name ++ key ++ "=" ++ encoded ++ ",") rest
      end
  end.

(** [TraceMeWrapper::AppendMetadata]: the string [*name] afterwards;
    [None] when an exception leaves it. *)
Definition AppendMetadata (name : string) (kw : kwargs) : option string :=
  match AppendMetadata_loop (push_back name "#") kw with
  | None => None
  | Some appended => Some (set_back appended "#")
  end.

(** The name generator that the constructor hands to [TraceMe]. *)
Definition name_and_metadata (name : string) (kw : kwargs) : option string :=
  if Nat.ltb 0 (length kw) then AppendMetadata name kw else Some name.


(** The texts [key=value] of the keywords, in order; [None] when the
    [str()] of some value raises. *)
Fixpoint entries (kw : kwargs) : option (list string) :=
  match kw with
  | [] => Some []
  | (key, value) :: rest =>
      match EncodePyObject value, entries rest with
      | Some encoded, Some l => Some ((key ++ "=" ++ encoded)%string :: l)
      | _, _ => None
      end
  end.

End TraceMeWrapper.

(** ** The profiler session bindings (xla/python/profiler.cc) *)

Module ProfilerSessionWrapper.

Section Session.

(** The message [tensorflow::profiler::XSpace] with its generated
    [SerializeAsString] and [ParseFromString]; the latter gives the flag it
    returns and the content it leaves in the message. *)
Variable XSpace : Type.
Variable SerializeAsString : XSpace -> string.
Variable ParseFromString : string -> bool * XSpace.

(** What the bindings act on (sessions, the file system), and a session
    handle. *)
Variable World : Type.
Variable Session : Type.

(** An [absl::Status]: [None] when OK, else its text. *)
Definition Status : Type := option string.

(** [sess->session->CollectData(&xspace)]: the status it returns and what
    it leaves in [xspace]. *)
Variable CollectData : Session -> World -> (Status * XSpace) * World.

(** [tsl::profiler::ExportToTensorBoard] *)
Variable ExportToTensorBoard : XSpace -> string -> bool -> World -> Status * World.

Definition Eff (A : Type) : Type := World -> Profiler.Completion A * World.

Definition ret {A : Type} (a : A) : Eff A := fun w => (Profiler.Returned a, w).

Definition seq {A B : Type} (m : Eff A) (k : A -> Eff B) : Eff B :=
  fun w =>
    match m w with
    | (Profiler.Returned a, w') => k a w'
    | (Profiler.Thrown e, w') => (Profiler.Thrown e, w')
    | (Profiler.Undefined, w') => (Profiler.Undefined, w')
    end.

(** A call that does not throw. *)
Definition call {A : Type} (f : World -> A * World) : Eff A :=
  fun w => let (a, w') := f w in (Profiler.Returned a, w').

(** [xla::ThrowIfError] *)
Definition ThrowIfError (status : Status) : Eff unit :=
  fun w =>
    match status with
    | None => (Profiler.Returned tt, w)
    | Some what => (Profiler.Thrown (Profiler.XlaRuntimeError what), w)
    end.

(** The binding [stop_and_export] *)
Definition stop_and_export (sess : Session) (tensorboard_dir : string) : Eff unit :=
  seq (call (CollectData sess)) (fun collected =>
  let xspace := snd collected in
  seq (ThrowIfError (fst collected)) (fun _ =>
  seq (call (ExportToTensorBoard xspace tensorboard_dir true)) ThrowIfError)).

(** The binding [stop] *)
Definition stop (sess : Session) : Eff string :=
  seq (call (CollectData sess)) (fun collected =>
  let xspace := snd collected in
  seq (ThrowIfError (fst collected)) (fun _ =>
  let xspace_str := SerializeAsString xspace in
  ret xspace_str)).

(** The binding [export]; the flag of [ParseFromString] is not looked at. *)
Definition export (sess : Session) (xspace : string) (tensorboard_dir : string)
  : Eff unit :=
  let xspace_proto := snd (ParseFromString xspace) in
  seq (call (ExportToTensorBoard xspace_proto tensorboard_dir true)) ThrowIfError.

End Session.

Arguments ThrowIfError {World} status.
Arguments stop_and_export {XSpace World Session} CollectData ExportToTensorBoard sess tensorboard_dir.
Arguments stop {XSpace} SerializeAsString {World Session} CollectData sess.
Arguments export {XSpace} ParseFromString {World Session} ExportToTensorBoard sess xspace tensorboard_dir.
Arguments seq {World A B} m k.
Arguments ret {World A} a.
Arguments call {World A} f.

End ProfilerSessionWrapper.

(** ** Calls of the bindings and more concrete inputs *)

(** Successive calls of [register_plugin_profiler] from Python, one per
    capsule, and the world they leave.  An exception ends the call that
    threw it and no more; after a call with undefined behaviour there is no
    next call and no world to speak of ([None]). *)
Fixpoint register_each (capsules : list Profiler.capsule) (w : Profiler.World)
  : option Profiler.World :=
  match capsules with
  | [] => Some w
  | c_api :: rest =>
      match Profiler.register_plugin_profiler c_api w with
      | (Profiler.Undefined, _) => None
      | (_, w') => register_each rest w'
      end
  end.

(** The capsule has the name ["pjrt_c_api"]. *)
Definition is_pjrt_c_api (c_api : Profiler.capsule) : bool :=
  match Profiler.name c_api with
  | Some text => String.eqb text "pjrt_c_api"
  | None => false
  end.

Module SessionExamples.

(** An [XSpace] as the names of its planes, serialized as a repeated
    field. *)
Definition XSpace : Type := list string.

Definition SerializeAsString (xspace : XSpace) : string :=
  string_of_list_ascii (enc (repeated text) xspace).

Definition ParseFromString (serialized : string) : bool * XSpace :=
  match dec (repeated text) (list_ascii_of_string serialized) with
  | Some (xspace, []) => (true, xspace)
  | _ => (false, [])
  end.

(** A world: what each session has traced, by session number ([None] once
    collected), and the directories written. *)
Record World : Type := {
  traced : list (option XSpace);
  written : list (string * XSpace)
}.

Fixpoint take_session (n : nat) (l : list (option XSpace))
  : option XSpace * list (option XSpace) :=
  match n, l with
  | _, [] => (None, [])
  | O, x :: rest => (x, None :: rest)
  | S n', x :: rest => let (found, rest') := take_session n' rest in (found, x :: rest')
  end.

Definition CollectData (sess : nat) (w : World)
  : (option string * XSpace) * World :=
  match take_session sess (traced w) with
  | (Some xspace, traced') =>
      ((None, xspace), {| traced := traced'; written := written w |})
  | (None, _) => ((Some "No profiling session is active.", []), w)
  end.

Definition ExportToTensorBoard (xspace : XSpace) (dir : string) (json : bool)
           (w : World) : option string * World :=
  if String.eqb dir "" then (Some "Empty log directory.", w)
  else (None, {| traced := traced w; written := written w ++ [(dir, xspace)] |}).

Definition world : World :=
  {| traced := [Some ["/host:CPU"; "/device:GPU:0"]; None]; written := [] |}.

End SessionExamples.

(** * Properties *)

(** ** The reference wire codec is lawful *)

Lemma get_put_varint_fuel (fuel : nat) :
  forall (n : N) (rest : wire),
    (n < 128 ^ N.of_nat (S fuel))%N ->
    get_varint (put_varint_fuel fuel n ++ rest) = Some (n, rest).
Proof.
  assert (small : forall n rest, (n < 128)%N ->
            get_varint ([ascii_of_N n] ++ rest) = Some (n, rest)).
  { intros n rest Hn. cbn [app get_varint].
    rewrite N_ascii_embedding by lia.
    apply N.ltb_lt in Hn. now rewrite Hn. }
  induction fuel as [| fuel IH]; intros n rest Hn.
  - cbn [put_varint_fuel]. apply small. exact Hn.
  - cbn [put_varint_fuel].
    destruct (n <? 128)%N eqn:Hsmall.
    + apply small. now apply N.ltb_lt.
    + apply N.ltb_ge in Hsmall.
      assert (Hmod : (n mod 128 < 128)%N) by (apply N.mod_lt; discriminate).
      assert (Hbyte : (128 + n mod 128 < 256)%N) by (clear - Hmod; lia).
      change ((?b :: ?l) ++ rest) with (b :: (l ++ rest)).
      cbn [get_varint].
      rewrite N_ascii_embedding by exact Hbyte.
      replace (128 + n mod 128 <? 128)%N with false
        by (symmetry; apply N.ltb_ge, N.le_add_r).
      rewrite IH.
      * f_equal. f_equal.
        rewrite (N.div_mod n 128) at 3 by discriminate.
        generalize (n mod 128)%N (n / 128)%N. clear. intros. lia.
      * apply N.Div0.div_lt_upper_bound.
        rewrite Nnat.Nat2N.inj_succ, N.pow_succ_r' in Hn. exact Hn.
Qed.

Lemma Lawful_varint : Lawful varint.
Proof.
  intros n rest. cbn [varint enc dec]. unfold put_varint.
  apply get_put_varint_fuel.
  rewrite Nnat.Nat2N.inj_succ, Nnat.N2Nat.id.
  apply N.lt_le_trans with (2 ^ N.size n)%N; [apply N.size_gt |].
  change 128%N with (2 ^ 7)%N. rewrite <- N.pow_mul_r.
  apply N.pow_le_mono_r; lia.
Qed.

Lemma Lawful_via {A B : Type} (to : A -> B) (from : B -> A) (c : Codec B) :
  (forall a, from (to a) = a) -> Lawful c -> Lawful (via to from c).
Proof.
  intros Hinv Hc a rest. cbn [via enc dec]. now rewrite Hc, Hinv.
Qed.

Lemma unzigzag_zigzag (z : Z) : unzigzag (zigzag z) = z.
Proof.
  unfold zigzag, unzigzag.
  destruct (z <? 0)%Z eqn:Hneg.
  - apply Z.ltb_lt in Hneg.
    replace (Z.to_N (- 2 * z - 1)) with (2 * Z.to_N (- z - 1) + 1)%N by lia.
    rewrite (N.add_comm _ 1), N.even_add_mul_2. cbn [N.even].
    replace ((1 + 2 * Z.to_N (- z - 1) + 1) / 2)%N with (Z.to_N (- z - 1) + 1)%N.
    + lia.
    + apply N.div_unique with 0%N; lia.
  - apply Z.ltb_ge in Hneg.
    replace (Z.to_N (2 * z)) with (2 * Z.to_N z)%N by lia.
    rewrite N.even_mul. cbn [N.even orb].
    replace (2 * Z.to_N z / 2)%N with (Z.to_N z).
    + lia.
    + apply N.div_unique with 0%N; lia.
Qed.

Lemma Lawful_sint : Lawful sint.
Proof.
  apply Lawful_via; [exact unzigzag_zigzag | exact Lawful_varint].
Qed.

Lemma Lawful_both {A B : Type} (ca : Codec A) (cb : Codec B) :
  Lawful ca -> Lawful cb -> Lawful (both ca cb).
Proof.
  intros Ha Hb [a b] rest. cbn [both enc dec fst snd].
  now rewrite <- app_assoc, Ha, Hb.
Qed.

Lemma get_many_flat_map {A : Type} (c : Codec A) :
  Lawful c ->
  forall (l : list A) (rest : wire),
    get_many c (length l) (flat_map (enc c) l ++ rest) = Some (l, rest).
Proof.
  intros Hc. induction l as [| a l IH]; intros rest; cbn [length flat_map get_many].
  - reflexivity.
  - now rewrite <- app_assoc, Hc, IH.
Qed.

Lemma Lawful_repeated {A : Type} (c : Codec A) :
  Lawful c -> Lawful (repeated c).
Proof.
  intros Hc l rest. cbn [repeated enc dec].
  rewrite <- app_assoc.
  pose proof (Lawful_varint (N.of_nat (length l))) as Hv.
  cbn [varint enc dec] in Hv. rewrite Hv, Nnat.Nat2N.id.
  now apply get_many_flat_map.
Qed.

Lemma length_list_ascii_of_string (s : string) :
  length (list_ascii_of_string s) = String.length s.
Proof.
  induction s as [| ch s IH]; cbn; [reflexivity | now rewrite IH].
Qed.

Lemma Lawful_text : Lawful text.
Proof.
  intros s rest. cbn [text enc dec].
  rewrite <- app_assoc.
  pose proof (Lawful_varint (N.of_nat (String.length s))) as Hv.
  cbn [varint enc dec] in Hv. rewrite Hv, Nnat.Nat2N.id.
  replace (N.of_nat (length (list_ascii_of_string s ++ rest))
           <? N.of_nat (String.length s))%N with false.
  - rewrite <- length_list_ascii_of_string.
    rewrite firstn_app, Nat.sub_diag, firstn_all, firstn_O, app_nil_r.
    rewrite skipn_app, Nat.sub_diag, skipn_all, skipn_O.
    now rewrite string_of_list_ascii_of_string.
  - symmetry. apply N.ltb_ge.
    rewrite length_app, length_list_ascii_of_string. lia.
Qed.

Lemma Lawful_field {A : Type} (number : N) (c : Codec A) :
  (number < 256)%N -> Lawful c -> Lawful (field number c).
Proof.
  intros Hn Hc a rest. cbn [field enc dec app].
  now rewrite N_ascii_embedding, N.eqb_refl, Hc.
Qed.

(** Lawfulness of a codec built from the combinators follows its
    structure. *)
Create HintDb lawful.
#[local] Hint Resolve Lawful_varint Lawful_sint Lawful_text : lawful.
#[local] Hint Resolve Lawful_both Lawful_repeated : lawful.
#[local] Hint Extern 2 (Lawful (field _ _)) =>
  apply Lawful_field; [reflexivity |] : lawful.

Lemma Lawful_DeviceListProto_codec : Lawful DeviceListProto_codec.
Proof.
  apply Lawful_via; [now intros [ids] | auto with lawful].
Qed.
#[local] Hint Resolve Lawful_DeviceListProto_codec : lawful.

Lemma Lawful_ArraySpecProto_codec : Lawful ArraySpecProto_codec.
Proof.
  apply Lawful_via; [now intros [d s l] | auto 8 with lawful].
Qed.
#[local] Hint Resolve Lawful_ArraySpecProto_codec : lawful.

Lemma Lawful_IoCallableProgramProto_codec : Lawful IoCallableProgramProto_codec.
Proof.
  apply Lawful_via; [now intros [t n p d i o] | auto 12 with lawful].
Qed.

(** Parsing what the reference codec serialized gives the message back. *)
Lemma reference_parse_serialize (proto : IoCallableProgramProto) :
  reference_ParseFromString (reference_SerializeAsString proto) = Some proto.
Proof.
  unfold reference_ParseFromString, reference_SerializeAsString.
  rewrite list_ascii_of_string_of_list_ascii.
  rewrite <- (app_nil_r (enc _ proto)).
  now rewrite Lawful_IoCallableProgramProto_codec.
Qed.

(** ** The serdes of [IoCallableProgram] and [IoCallableCompileOptions] *)

Section IoCallableProgramSerDes_Properties.

Variable NDEBUG : bool.
Variable Device : Type.
Variable Id : Device -> DeviceId.
Variable SerializeAsString : IoCallableProgramProto -> string.
Variable ParseFromString : string -> option IoCallableProgramProto.

(** The law of the generated message class: a serialized message parses
    back to itself. *)
Hypothesis ParseFromString_SerializeAsString :
  forall proto, ParseFromString (SerializeAsString proto) = Some proto.

Implicit Types (lookup_device : LookupDeviceFunc Device).
Implicit Types (program : IoCallableProgram Device).

(** *** The loops keep every spec, in order *)

Lemma add_specs_all (specs : list (ArraySpec Device)) :
  forall added,
    add_specs Id specs added =
    Ok (added ++ map (fun spec =>
                        {| proto_dtype := dtype spec;
                           proto_shape := shape spec;
                           proto_sharding := DeviceList_ToProto Id (sharding spec) |})
                     specs).
Proof.
  induction specs as [| spec specs IH]; intros added; cbn.
  - now rewrite app_nil_r.
  - now rewrite IH, <- app_assoc.
Qed.

Lemma resolve_devices_own_ids lookup_device (l : list Device) :
  (forall device, In device l -> lookup_device (Id device) = Some device) ->
  resolve_devices lookup_device (map Id l) = Ok l.
Proof.
  induction l as [| device l IH]; intros Hl; cbn.
  - reflexivity.
  - rewrite Hl by now left.
    rewrite IH by (intros d Hd; apply Hl; now right).
    reflexivity.
Qed.

Lemma push_back_specs_own_protos lookup_device (specs : list (ArraySpec Device)) :
  (forall device, In device (flat_map sharding specs) ->
                  lookup_device (Id device) = Some device) ->
  forall pushed,
    push_back_specs lookup_device
      (map (fun spec =>
              {| proto_dtype := dtype spec;
                 proto_shape := shape spec;
                 proto_sharding := DeviceList_ToProto Id (sharding spec) |})
           specs) pushed
    = Ok (pushed ++ specs).
Proof.
  induction specs as [| spec specs IH]; intros Hl pushed; cbn.
  - now rewrite app_nil_r.
  - unfold ArraySpec_FromProto, DeviceList_FromProto. cbn.
    rewrite resolve_devices_own_ids
      by (intros d Hd; apply Hl; cbn; apply in_or_app; now left).
    cbn. rewrite IH by (intros d Hd; apply Hl; cbn; apply in_or_app; now right).
    destruct spec; cbn. now rewrite <- app_assoc.
Qed.

(** In this model [Serialize] returns bytes for every program. *)
Lemma Serialize_returns program :
  exists serialized,
    IoCallableProgramSerDes_Serialize NDEBUG Id SerializeAsString (AnIoCallableProgram program)
    = Returns (Ok serialized).
Proof.
  unfold IoCallableProgramSerDes_Serialize. cbn.
  rewrite !add_specs_all. cbn. eauto.
Qed.

(** C1. For the kind registered as ["xla::ifrt::IoCallableProgram"], the
    bytes that [Serialize] returns for a program deserialize, with options
    whose capability resolves the id of every device of the program to
    that device, to a program equal to the original in every field: type,
    name, serialized program text, device list, and the input and output
    specs in their number and order. *)
Theorem IoCallableProgram_round_trip :
  forall program lookup_device (serialized : string),
    let serdes := IoCallableProgramSerDes NDEBUG Id SerializeAsString ParseFromString in
    consistent_options Id lookup_device program ->
    Serialize serdes (AnIoCallableProgram program) = Returns (Ok serialized) ->
    type_name serdes = "xla::ifrt::IoCallableProgram"
    /\ Deserialize serdes serialized (Some (DeserializeProgramOptions lookup_device))
       = Returns (Ok (AnIoCallableProgram program)).
Proof.
  intros program lookup_device serialized serdes Hconsistent Hserialized.
  split; [reflexivity |].
  cbn in Hserialized |- *.
  unfold IoCallableProgramSerDes_Serialize in Hserialized.
  cbn in Hserialized. rewrite !add_specs_all in Hserialized.
  cbn in Hserialized. injection Hserialized as <-.
  unfold IoCallableProgramSerDes_Deserialize. cbn.
  rewrite ParseFromString_SerializeAsString. cbn.
  unfold consistent_options, program_devices in Hconsistent.
  unfold DeviceList_FromProto, DeviceList_ToProto. cbn.
  rewrite resolve_devices_own_ids
    by (intros d Hd; apply Hconsistent, in_or_app; now left).
  cbn.
  rewrite (push_back_specs_own_protos lookup_device (input_specs program))
    by (intros d Hd; apply Hconsistent, in_or_app; right;
        apply in_or_app; now left).
  cbn.
  rewrite (push_back_specs_own_protos lookup_device (output_specs program))
    by (intros d Hd; apply Hconsistent, in_or_app; right;
        apply in_or_app; now right).
  cbn. now destruct program.
Qed.

(** C2, as the code has it. When the options pointer is null or points to
    an object that is not a [DeserializeProgramOptions], the mismatch is
    checked by the assertion of [llvm::cast] alone and is never reported as
    an [InvalidOptions] failure.  In a build with assertions the assertion
    fails and the call returns nothing.  In a build without them the cast
    is not checked: a payload that does not parse is still rejected with
    the invalid-argument status, and for a payload that parses the
    behaviour is undefined. *)
Theorem Deserialize_options_mismatch :
  forall (serialized : string) (options : option (DeserializeOptions Device)),
    (forall lookup_device, options <> Some (DeserializeProgramOptions lookup_device)) ->
    IoCallableProgramSerDes_Deserialize NDEBUG ParseFromString serialized options
    = if NDEBUG then
        match ParseFromString serialized with
        | None =>
            Returns (Err (InvalidArgumentError
                            "Failed to parse serialized IoCallableProgramProto"))
        | Some _ => UndefinedBehaviour
        end
      else CastAssertion.
Proof.
  intros serialized [[lookup_device | class_name] |] Hmismatch;
    unfold IoCallableProgramSerDes_Deserialize; cbn [cast_DeserializeProgramOptions].
  - now destruct (Hmismatch lookup_device).
  - destruct NDEBUG; [| reflexivity].
    now destruct (ParseFromString serialized).
  - destruct NDEBUG; [| reflexivity].
    now destruct (ParseFromString serialized).
Qed.

(** C6. A byte string that does not parse as an [IoCallableProgramProto]
    is rejected by [Deserialize], called with program options, with the
    invalid-argument status (the design document's [MalformedPayload]);
    and whatever the options are, no value is produced for it. *)
Theorem Deserialize_malformed_payload :
  forall (serialized : string),
    ParseFromString serialized = None ->
    (forall lookup_device,
        IoCallableProgramSerDes_Deserialize NDEBUG ParseFromString serialized
          (Some (DeserializeProgramOptions lookup_device))
        = Returns (Err (InvalidArgumentError
                          "Failed to parse serialized IoCallableProgramProto")))
    /\ error_kind (InvalidArgumentError
                     "Failed to parse serialized IoCallableProgramProto")
       = MalformedPayload
    /\ (forall (options : option (DeserializeOptions Device))
               (value : Serializable Device),
           IoCallableProgramSerDes_Deserialize NDEBUG ParseFromString serialized options
           <> Returns (Ok value)).
Proof.
  intros serialized Hparse. repeat split.
  - intros lookup_device.
    unfold IoCallableProgramSerDes_Deserialize. cbn. now rewrite Hparse.
  - intros options value.
    unfold IoCallableProgramSerDes_Deserialize.
    destruct (cast_DeserializeProgramOptions NDEBUG options);
      rewrite ?Hparse; discriminate.
Qed.

(** *** Device resolution *)

Lemma first_unresolved_app lookup_device (l1 l2 : list DeviceId) :
  first_unresolved lookup_device (l1 ++ l2) =
  match first_unresolved lookup_device l1 with
  | Some id => Some id
  | None => first_unresolved lookup_device l2
  end.
Proof.
  unfold first_unresolved.
  induction l1 as [| id l1 IH]; cbn; [reflexivity |].
  now destruct (lookup_device id).
Qed.

Lemma first_unresolved_Some lookup_device (ids : list DeviceId) (id : DeviceId) :
  first_unresolved lookup_device ids = Some id ->
  In id ids /\ lookup_device id = None.
Proof.
  intros Hfind. apply find_some in Hfind as [Hin Hnone].
  split; [exact Hin |]. now destruct (lookup_device id).
Qed.

Lemma first_unresolved_exists lookup_device (ids : list DeviceId) :
  (exists id, In id ids /\ lookup_device id = None) ->
  exists id, first_unresolved lookup_device ids = Some id.
Proof.
  intros [id [Hin Hnone]].
  destruct (first_unresolved lookup_device ids) as [found |] eqn:Hfind; [eauto |].
  apply find_none with (x := id) in Hfind; [| exact Hin].
  rewrite Hnone in Hfind. discriminate.
Qed.

Lemma resolve_devices_first_unresolved lookup_device (ids : list DeviceId) :
  match first_unresolved lookup_device ids with
  | Some id => resolve_devices lookup_device ids = Err (UnresolvedDeviceError id)
  | None => exists l, resolve_devices lookup_device ids = Ok l
                      /\ resolved_as lookup_device ids l
  end.
Proof.
  unfold first_unresolved, resolved_as.
  induction ids as [| id ids IH]; cbn.
  - exists []. split; [reflexivity | constructor].
  - destruct (lookup_device id) as [device |] eqn:Hid; [| reflexivity].
    destruct (find _ ids) as [bad |].
    + now rewrite IH.
    + destruct IH as [l [-> Hl]]. cbn.
      exists (device :: l). split; [reflexivity | now constructor].
Qed.

Lemma push_back_specs_first_unresolved lookup_device (protos : list ArraySpecProto) :
  forall pushed,
    match first_unresolved lookup_device
            (flat_map (fun s => device_ids (proto_sharding s)) protos) with
    | Some id =>
        push_back_specs lookup_device protos pushed = Err (UnresolvedDeviceError id)
    | None =>
        exists specs,
          push_back_specs lookup_device protos pushed = Ok (pushed ++ specs)
          /\ Forall2 (spec_resolved_as lookup_device) protos specs
    end.
Proof.
  induction protos as [| proto protos IH]; intros pushed; cbn [flat_map].
  - cbn. exists []. split; [now rewrite app_nil_r | constructor].
  - rewrite first_unresolved_app. cbn [push_back_specs].
    unfold ArraySpec_FromProto, DeviceList_FromProto.
    pose proof (resolve_devices_first_unresolved lookup_device
                  (device_ids (proto_sharding proto))) as Hhead.
    destruct (first_unresolved lookup_device (device_ids (proto_sharding proto)))
      as [bad |].
    + now rewrite Hhead.
    + destruct Hhead as [l [-> Hl]]. cbn [bind].
      specialize (IH (pushed ++ [{| dtype := proto_dtype proto;
                                    shape := proto_shape proto;
                                    sharding := l |}])).
      destruct (first_unresolved lookup_device
                  (flat_map (fun s => device_ids (proto_sharding s)) protos))
        as [bad |].
      * exact IH.
      * destruct IH as [specs [-> Hspecs]].
        eexists (_ :: specs). split.
        -- now rewrite <- app_assoc.
        -- constructor; [| exact Hspecs]. now repeat split.
Qed.

(** What [Deserialize] does with a payload that parses: it fails at the
    first referenced id without a resolution, and otherwise returns the
    program of the message with every id resolved. *)
Lemma Deserialize_resolution (serialized : string) (proto : IoCallableProgramProto)
      lookup_device :
  ParseFromString serialized = Some proto ->
  match first_unresolved lookup_device (referenced_device_ids proto) with
  | Some id =>
      IoCallableProgramSerDes_Deserialize NDEBUG ParseFromString serialized
        (Some (DeserializeProgramOptions lookup_device))
      = Returns (Err (UnresolvedDeviceError id))
  | None =>
      exists program,
        IoCallableProgramSerDes_Deserialize NDEBUG ParseFromString serialized
          (Some (DeserializeProgramOptions lookup_device))
        = Returns (Ok (AnIoCallableProgram program))
        /\ type program = proto_type proto
        /\ name program = proto_name proto
        /\ serialized_program_text program = proto_serialized_program_text proto
        /\ resolved_as lookup_device (device_ids (proto_devices proto)) (devices program)
        /\ Forall2 (spec_resolved_as lookup_device)
                   (proto_input_specs proto) (input_specs program)
        /\ Forall2 (spec_resolved_as lookup_device)
                   (proto_output_specs proto) (output_specs program)
  end.
Proof.
  intros Hparse.
  unfold IoCallableProgramSerDes_Deserialize, referenced_device_ids.
  cbn [cast_DeserializeProgramOptions]. rewrite Hparse.
  rewrite !first_unresolved_app. unfold DeviceList_FromProto.
  pose proof (resolve_devices_first_unresolved lookup_device
                (device_ids (proto_devices proto))) as Hdevices.
  destruct (first_unresolved lookup_device (device_ids (proto_devices proto)))
    as [bad |]; [now rewrite Hdevices |].
  destruct Hdevices as [l [-> Hl]]. cbn [bind].
  pose proof (push_back_specs_first_unresolved lookup_device
                (proto_input_specs proto) []) as Hinputs.
  destruct (first_unresolved lookup_device
              (flat_map _ (proto_input_specs proto)))
    as [bad |]; [now rewrite Hinputs |].
  destruct Hinputs as [inputs [-> Hinputs]]. cbn [bind app].
  pose proof (push_back_specs_first_unresolved lookup_device
                (proto_output_specs proto) []) as Houtputs.
  destruct (first_unresolved lookup_device
              (flat_map _ (proto_output_specs proto)))
    as [bad |]; [now rewrite Houtputs |].
  destruct Houtputs as [outputs [-> Houtputs]]. cbn [bind app].
  eexists. split; [reflexivity |]. cbn. now repeat split.
Qed.

(** C5. When the payload parses and some logical device id referenced by
    the encoded device list or by an array spec has no resolution under the
    capability of the options, [Deserialize] fails with [UnresolvedDevice],
    naming a referenced id without resolution; it returns no program. *)
Theorem Deserialize_unresolved_device :
  forall (serialized : string) (proto : IoCallableProgramProto) lookup_device,
    ParseFromString serialized = Some proto ->
    (exists id, In id (referenced_device_ids proto) /\ lookup_device id = None) ->
    exists id,
      In id (referenced_device_ids proto)
      /\ lookup_device id = None
      /\ IoCallableProgramSerDes_Deserialize NDEBUG ParseFromString serialized
           (Some (DeserializeProgramOptions lookup_device))
         = Returns (Err (UnresolvedDeviceError id))
      /\ error_kind (UnresolvedDeviceError id) = UnresolvedDevice.
Proof.
  intros serialized proto lookup_device Hparse Hunresolved.
  apply first_unresolved_exists in Hunresolved as [id Hfirst].
  pose proof (Deserialize_resolution serialized proto lookup_device Hparse) as H.
  rewrite Hfirst in H.
  apply first_unresolved_Some in Hfirst as [Hin Hnone].
  exists id. now repeat split.
Qed.

(** Every device handle of a deserialized program was returned by the
    capability for the id in its place. *)
Lemma Deserialize_handles_resolved (serialized : string)
      (proto : IoCallableProgramProto) lookup_device program :
  ParseFromString serialized = Some proto ->
  IoCallableProgramSerDes_Deserialize NDEBUG ParseFromString serialized
    (Some (DeserializeProgramOptions lookup_device))
  = Returns (Ok (AnIoCallableProgram program)) ->
  resolved_as lookup_device (device_ids (proto_devices proto)) (devices program)
  /\ Forall2 (spec_resolved_as lookup_device)
             (proto_input_specs proto) (input_specs program)
  /\ Forall2 (spec_resolved_as lookup_device)
             (proto_output_specs proto) (output_specs program).
Proof.
  intros Hparse Hok.
  pose proof (Deserialize_resolution serialized proto lookup_device Hparse) as H.
  destruct (first_unresolved lookup_device (referenced_device_ids proto)).
  - rewrite H in Hok. discriminate.
  - destruct H as [program' [Heq H]]. rewrite Heq in Hok.
    injection Hok as <-. tauto.
Qed.

(** C4. When the serialized program's device list is the logical ids 0 and
    1, every id it references is 0 or 1, and the capability of the options
    resolves 0 to [A] and 1 to [B], [Deserialize] returns a program whose
    device list is exactly [A; B]. *)
Theorem Deserialize_device_list :
  forall (serialized : string) (proto : IoCallableProgramProto) lookup_device
         (A B : Device),
    ParseFromString serialized = Some proto ->
    device_ids (proto_devices proto) = [0; 1]%Z ->
    (forall id, In id (referenced_device_ids proto) -> id = 0%Z \/ id = 1%Z) ->
    lookup_device 0%Z = Some A ->
    lookup_device 1%Z = Some B ->
    exists program,
      IoCallableProgramSerDes_Deserialize NDEBUG ParseFromString serialized
        (Some (DeserializeProgramOptions lookup_device))
      = Returns (Ok (AnIoCallableProgram program))
      /\ devices program = [A; B].
Proof.
  intros serialized proto lookup_device A B Hparse Hids Hrefs HA HB.
  pose proof (Deserialize_resolution serialized proto lookup_device Hparse) as H.
  destruct (first_unresolved lookup_device (referenced_device_ids proto))
    as [bad |] eqn:Hfirst.
  - apply first_unresolved_Some in Hfirst as [Hin Hnone].
    destruct (Hrefs bad Hin) as [-> | ->]; congruence.
  - destruct H as [program [Hok [_ [_ [_ [Hdevices _]]]]]].
    exists program. split; [exact Hok |].
    unfold resolved_as in Hdevices. rewrite Hids in Hdevices.
    inversion Hdevices as [| id0 d0 ids0 l0 H0 Htail]; subst.
    inversion Htail as [| id1 d1 ids1 l1 H1 Hnil]; subst.
    inversion Hnil; subst. congruence.
Qed.

(** *** The serdes of the compile options *)

(** C3. [Serialize] of the compile options' serdes returns the empty
    string, whatever it is given; its [Deserialize] returns a value exactly
    for the empty string, and rejects every other payload with the
    invalid-argument status (the design document's [MalformedPayload]). *)
Theorem IoCallableCompileOptions_canonically_empty :
  forall (serializable : Serializable Device) (serialized : string)
         (options : option (DeserializeOptions Device)),
    IoCallableCompileOptionsSerDes_Serialize serializable = Returns (Ok "")
    /\ ((exists value, IoCallableCompileOptionsSerDes_Deserialize serialized options
                       = Returns (Ok value))
        <-> serialized = "")
    /\ (serialized <> "" ->
        exists status,
          IoCallableCompileOptionsSerDes_Deserialize serialized options
          = Returns (Err status)
          /\ status = InvalidArgumentError
                        ("Invalid serialized IoCallableCompileOptions; a serialized "
                         ++ "IoCallableCompileOptions is expected to be an empty string")
          /\ error_kind status = MalformedPayload).
Proof.
  intros serializable serialized options.
  unfold IoCallableCompileOptionsSerDes_Deserialize.
  split; [reflexivity |]. split; [split |].
  - intros [value Hvalue]. destruct serialized; [reflexivity | discriminate].
  - intros ->. cbn. eauto.
  - intros Hnonempty. destruct serialized; [contradiction |]. cbn. eauto.
Qed.

(** C9. The outcome of the compile options' [Deserialize] is a function of
    the byte string alone: any two options objects (of whatever type, or
    null) give the same outcome; no cast of the options is made, and no
    returned status is an [InvalidOptions]. *)
Theorem IoCallableCompileOptions_Deserialize_ignores_options :
  forall (serialized : string) (o1 o2 : option (DeserializeOptions Device)),
    IoCallableCompileOptionsSerDes_Deserialize serialized o1
    = IoCallableCompileOptionsSerDes_Deserialize serialized o2
    /\ IoCallableCompileOptionsSerDes_Deserialize serialized o1 <> CastAssertion
    /\ ~ (exists status,
             IoCallableCompileOptionsSerDes_Deserialize serialized o1
             = Returns (Err status)
             /\ error_kind status = InvalidOptions).
Proof.
  intros serialized o1 o2.
  unfold IoCallableCompileOptionsSerDes_Deserialize.
  split; [reflexivity |].
  destruct (negb (empty serialized)); split; try discriminate.
  - intros [status [Hstatus Hkind]]. injection Hstatus as <-. discriminate.
  - intros [status [Hstatus _]]. discriminate.
Qed.

End IoCallableProgramSerDes_Properties.

(** ** The serdes on concrete inputs *)

Lemma IoCallableProgram_round_trip_witness :
  Serialize Examples.serdes (AnIoCallableProgram Examples.program)
  = Returns (Ok Examples.serialized)
  /\ Deserialize Examples.serdes Examples.serialized Examples.program_options
     = Returns (Ok (AnIoCallableProgram Examples.program)).
Proof.
  assert (Hserialized : Serialize Examples.serdes (AnIoCallableProgram Examples.program)
                        = Returns (Ok Examples.serialized))
    by (vm_compute; reflexivity).
  split; [exact Hserialized |].
  refine (proj2 (IoCallableProgram_round_trip false
                   DeviceHandle handle_id
                   reference_SerializeAsString reference_ParseFromString
                   reference_parse_serialize
                   Examples.program (lookup_in [Examples.device_A; Examples.device_B])
                   Examples.serialized _ Hserialized)).
  intros device Hin. vm_compute in Hin.
  repeat (destruct Hin as [<- | Hin]; [reflexivity |]). contradiction.
Defined.

(** C2 as stated fails: options of another class, given to [Deserialize]
    with a payload that parses, are not answered with an [InvalidOptions]
    status.  With assertions the cast assertion fails and no status is
    returned; without them the behaviour is undefined. *)
Lemma Deserialize_options_mismatch_not_reported :
  Deserialize Examples.serdes Examples.serialized Examples.sharding_options
  = CastAssertion
  /\ Deserialize Examples.release_serdes Examples.serialized Examples.sharding_options
     = UndefinedBehaviour
  /\ ~ (exists status,
           Deserialize Examples.serdes Examples.serialized Examples.sharding_options
           = Returns (Err status)
           /\ error_kind status = InvalidOptions)
  /\ ~ (exists status,
           Deserialize Examples.release_serdes Examples.serialized
             Examples.sharding_options
           = Returns (Err status)
           /\ error_kind status = InvalidOptions).
Proof.
  assert (Hchecked : Deserialize Examples.serdes Examples.serialized
                       Examples.sharding_options = CastAssertion)
    by reflexivity.
  assert (Hrelease : Deserialize Examples.release_serdes Examples.serialized
                       Examples.sharding_options = UndefinedBehaviour)
    by (vm_compute; reflexivity).
  repeat split; try assumption.
  - rewrite Hchecked. intros [status [Hstatus _]]. discriminate.
  - rewrite Hrelease. intros [status [Hstatus _]]. discriminate.
Qed.

Lemma Deserialize_options_mismatch_witness :
  IoCallableProgramSerDes_Deserialize true reference_ParseFromString
    "garbage" (@None (DeserializeOptions DeviceHandle))
  = Returns (Err (InvalidArgumentError
                    "Failed to parse serialized IoCallableProgramProto")).
Proof.
  apply (Deserialize_options_mismatch true DeviceHandle reference_ParseFromString
           "garbage" None).
  intros lookup_device. discriminate.
Defined.

Lemma Deserialize_malformed_payload_witness :
  reference_ParseFromString "garbage" = None
  /\ IoCallableProgramSerDes_Deserialize false reference_ParseFromString "garbage"
       Examples.program_options
     = Returns (Err (InvalidArgumentError
                       "Failed to parse serialized IoCallableProgramProto")).
Proof.
  assert (Hparse : reference_ParseFromString "garbage" = None) by reflexivity.
  split; [exact Hparse |].
  exact (proj1 (Deserialize_malformed_payload false
                  DeviceHandle reference_ParseFromString "garbage" Hparse)
               (lookup_in [Examples.device_A; Examples.device_B])).
Defined.

Lemma Deserialize_unresolved_device_witness :
  exists id,
    In id (referenced_device_ids Examples.proto)
    /\ lookup_in [Examples.device_A] id = None
    /\ IoCallableProgramSerDes_Deserialize false reference_ParseFromString
         Examples.serialized Examples.partial_options
       = Returns (Err (UnresolvedDeviceError id))
    /\ error_kind (UnresolvedDeviceError id) = UnresolvedDevice.
Proof.
  apply (Deserialize_unresolved_device false
           DeviceHandle reference_ParseFromString
           Examples.serialized Examples.proto (lookup_in [Examples.device_A])).
  - apply reference_parse_serialize.
  - exists 1%Z. split; [vm_compute; tauto | reflexivity].
Defined.

Lemma Deserialize_device_list_witness :
  exists program,
    IoCallableProgramSerDes_Deserialize false reference_ParseFromString
      Examples.serialized Examples.program_options
    = Returns (Ok (AnIoCallableProgram program))
    /\ devices program = [Examples.device_A; Examples.device_B].
Proof.
  apply (Deserialize_device_list false
           DeviceHandle reference_ParseFromString
           Examples.serialized Examples.proto
           (lookup_in [Examples.device_A; Examples.device_B])).
  - apply reference_parse_serialize.
  - reflexivity.
  - intros id Hin. vm_compute in Hin.
    repeat (destruct Hin as [<- | Hin]; [tauto |]). contradiction.
  - reflexivity.
  - reflexivity.
Defined.

Example Deserialize_program_example :
  Deserialize Examples.serdes Examples.serialized Examples.program_options
  = Returns (Ok (AnIoCallableProgram Examples.program)).
Proof. vm_compute. reflexivity. Qed.

Example Deserialize_partial_options_example :
  Deserialize Examples.serdes Examples.serialized Examples.partial_options
  = Returns (Err (UnresolvedDeviceError 1%Z)).
Proof. vm_compute. reflexivity. Qed.

Example Deserialize_truncated_example :
  Deserialize Examples.serdes (substring 0 40 Examples.serialized)
    Examples.program_options
  = Returns (Err (InvalidArgumentError
                    "Failed to parse serialized IoCallableProgramProto")).
Proof. vm_compute. reflexivity. Qed.

Example Serialize_other_class_example :
  Serialize Examples.serdes (OtherSerializable "xla::ifrt::HloProgram")
  = CastAssertion
  /\ Serialize Examples.release_serdes (OtherSerializable "xla::ifrt::HloProgram")
     = UndefinedBehaviour.
Proof. split; reflexivity. Qed.

Example IoCallableCompileOptions_example :
  Serialize (@IoCallableCompileOptionsSerDes DeviceHandle)
    (AnIoCallableCompileOptions MakeIoCallableCompileOptions)
  = Returns (Ok "")
  /\ Deserialize (@IoCallableCompileOptionsSerDes DeviceHandle) "" None
     = Returns (Ok (AnIoCallableCompileOptions MakeIoCallableCompileOptions))
  /\ Deserialize (@IoCallableCompileOptionsSerDes DeviceHandle) " " None
     = Returns (Err (InvalidArgumentError
         "Invalid serialized IoCallableCompileOptions; a serialized IoCallableCompileOptions is expected to be an empty string")).
Proof. repeat split. Qed.

(** ** The profiler's plugin registration *)

(** A capsule named ["pjrt_c_api"] is accepted: its data pointer is read
    once, and one factory that captures the profiler API found in its
    extension chain is registered. *)
Lemma register_plugin_profiler_accepts (c_api : Profiler.capsule) (w : Profiler.World) :
  Profiler.name c_api = Some "pjrt_c_api" ->
  Profiler.register_plugin_profiler c_api w
  = (Profiler.Returned tt,
     {| Profiler.data_reads := Profiler.data_reads w ++ [c_api];
        Profiler.profiler_factories :=
          Profiler.profiler_factories w
          ++ [Profiler.PluginTracerFactory
                (Profiler.FindProfilerApi (Profiler.data c_api))] |}).
Proof.
  intros Hname. unfold Profiler.register_plugin_profiler.
  rewrite Hname. reflexivity.
Qed.

(** C10, at the input where the code departs from it.  For a capsule
    that has no name, [c_api.name()] is the null pointer and
    [register_plugin_profiler] builds a [std::string_view] from it: the
    behaviour is undefined, and no [XlaRuntimeError] is thrown, whatever
    the data pointer and the world are. *)
Theorem register_plugin_profiler_nameless_capsule :
  forall (pjrt_api : Profiler.PJRT_Api) (w : Profiler.World),
    Profiler.register_plugin_profiler
      {| Profiler.name := None; Profiler.data := pjrt_api |} w
    = (Profiler.Undefined, w)
    /\ forall what,
         fst (Profiler.register_plugin_profiler
                {| Profiler.name := None; Profiler.data := pjrt_api |} w)
         <> Profiler.Thrown (Profiler.XlaRuntimeError what).
Proof.
  intros pjrt_api w. split; [reflexivity |].
  intros what. cbn. discriminate.
Qed.

(** X13. For a capsule that has a name, and not exactly the name
    ["pjrt_c_api"], [register_plugin_profiler] throws an [XlaRuntimeError]
    and leaves the world as it was: the capsule's data pointer has not been
    read and no profiler factory has been registered. *)
Theorem register_plugin_profiler_rejects :
  forall (c_api : Profiler.capsule) (w : Profiler.World) (text : string),
    Profiler.name c_api = Some text ->
    text <> "pjrt_c_api" ->
    Profiler.register_plugin_profiler c_api w
    = (Profiler.Thrown
         (Profiler.XlaRuntimeError
            "Argument to register_plugin_profiler was not a pjrt_c_api capsule."),
       w).
Proof.
  intros c_api w text Hname Hother. unfold Profiler.register_plugin_profiler.
  rewrite Hname. cbn [Profiler.seq Profiler.string_view].
  destruct (String.eqb_spec text "pjrt_c_api") as [Heq | _].
  - contradiction.
  - reflexivity.
Qed.

Example FindProfilerApi_example :
  Profiler.FindProfilerApi (Profiler.data Examples.pjrt_capsule) = Some 48879%N
  /\ Profiler.FindProfilerApi (Profiler.data Examples.other_capsule) = None.
Proof. split; reflexivity. Qed.

Example register_plugin_profiler_accepts_example :
  Profiler.register_plugin_profiler Examples.pjrt_capsule Examples.world
  = (Profiler.Returned tt,
     {| Profiler.data_reads := [Examples.pjrt_capsule; Examples.pjrt_capsule];
        Profiler.profiler_factories :=
          [Profiler.PluginTracerFactory (Some 48879%N);
           Profiler.PluginTracerFactory (Some 48879%N)] |}).
Proof. reflexivity. Qed.

Lemma register_plugin_profiler_rejects_witness :
  Profiler.register_plugin_profiler Examples.other_capsule Examples.world
  = (Profiler.Thrown
       (Profiler.XlaRuntimeError
          "Argument to register_plugin_profiler was not a pjrt_c_api capsule."),
     Examples.world).
Proof.
  apply (register_plugin_profiler_rejects
           Examples.other_capsule Examples.world "xla._CUSTOM_CALL_TARGET").
  - reflexivity.
  - discriminate.
Defined.

Example register_plugin_profiler_nameless_example :
  Profiler.register_plugin_profiler Examples.nameless_capsule Examples.world
  = (Profiler.Undefined, Examples.world).
Proof. reflexivity. Qed.

(** ** Ahead-of-time compilation, loading and execution *)

Lemma eqb_list_refl {A : Type} (eqb : A -> A -> bool) :
  (forall a, eqb a a = true) -> forall l, Pjrt.eqb_list eqb l l = true.
Proof.
  intros Hrefl. induction l as [| a l IH]; cbn; [reflexivity |].
  now rewrite Hrefl, IH.
Qed.

Lemma TargetDescription_eqb_refl (target : Pjrt.TargetDescription) :
  Pjrt.TargetDescription_eqb target target = true.
Proof.
  unfold Pjrt.TargetDescription_eqb.
  now rewrite String.eqb_refl, (eqb_list_refl N.eqb N.eqb_refl).
Qed.

(** A client with one device matches the target captured from it. *)
Lemma target_matches_single_device (device : Pjrt.LiveDevice) :
  Pjrt.target_matches (Pjrt.CaptureTargetDescription device)
    {| Pjrt.default_stream_executor := device; Pjrt.other_devices := [] |}
  = true.
Proof.
  unfold Pjrt.target_matches. cbn. now rewrite TargetDescription_eqb_refl.
Qed.

Lemma Lawful_TargetDescription_codec : Lawful Pjrt.TargetDescription_codec.
Proof.
  apply Lawful_via; [now intros [i m] | auto 8 with lawful].
Qed.
#[local] Hint Resolve Lawful_TargetDescription_codec : lawful.

Lemma Lawful_versioned_codec : Lawful Pjrt.versioned_codec.
Proof.
  apply Lawful_both; [auto with lawful |].
  apply Lawful_via; [| auto 8 with lawful].
  intros [t c n]; cbn. now rewrite Nnat.Nat2N.id.
Qed.

Lemma Lawful_HloInstruction_codec : Lawful Pjrt.HloInstruction_codec.
Proof.
  apply Lawful_via; [| auto with lawful].
  intros [value | number]; cbn; [reflexivity | now rewrite Nat2Z.id].
Qed.

(** A serialized executable is reconstructed from its bytes. *)
Lemma DeserializeExecutable_SerializeExecutable (executable : Pjrt.Executable) :
  Pjrt.DeserializeExecutable (Pjrt.SerializeExecutable executable)
  = Pjrt.Success executable.
Proof.
  unfold Pjrt.DeserializeExecutable, Pjrt.SerializeExecutable.
  rewrite list_ascii_of_string_of_list_ascii.
  rewrite <- (app_nil_r (enc _ _)).
  now rewrite Lawful_versioned_codec.
Qed.

(** C7. [Compile] succeeds with an absent client whenever the backend
    lowers the program, and gives what it gives with any client; the
    executable it returns is loaded from its serialized bytes alone by a
    client whose devices match the target, as that same executable:
    [LoadSerialized] does not call the backend's lowering. *)
Theorem aot_executable_loads_from_serialized :
  forall (lower : Pjrt.CompileOptions -> Pjrt.HloModule -> Pjrt.TargetDescription
                  -> Pjrt.Result string)
         (options : Pjrt.CompileOptions) (program : Pjrt.HloModule)
         (target : Pjrt.TargetDescription) (code : string)
         (client : Pjrt.Client) (load_options : Pjrt.LoadOptions),
    lower options program target = Pjrt.Success code ->
    Pjrt.target_matches target client = true ->
    exists executable,
      Pjrt.Compile lower options program target None = Pjrt.Success executable
      /\ (forall optional_client,
             Pjrt.Compile lower options program target optional_client
             = Pjrt.Success executable)
      /\ Pjrt.machine_code executable = code
      /\ Pjrt.LoadSerialized (Pjrt.SerializeExecutable executable) None
           load_options client
         = Pjrt.Success {| Pjrt.loaded := executable;
                           Pjrt.bound_devices := Pjrt.client_devices client |}.
Proof.
  intros lower options program target code client load_options Hlower Hmatch.
  eexists. unfold Pjrt.Compile. rewrite Hlower. cbn [Pjrt.and_then].
  split; [reflexivity |]. split; [reflexivity |]. split; [reflexivity |].
  unfold Pjrt.LoadSerialized.
  rewrite DeserializeExecutable_SerializeExecutable. cbn [Pjrt.and_then].
  unfold Pjrt.Load. cbn [Pjrt.executable_target]. now rewrite Hmatch.
Qed.

(** The test is the pipeline followed by [ValidateResult]. *)
Lemma test_follows_pipeline
      (lower : Pjrt.CompileOptions -> Pjrt.HloModule -> Pjrt.TargetDescription
               -> Pjrt.Result string)
      (dispatch : string -> list Pjrt.Literal -> Pjrt.Result (list Pjrt.Literal))
      (se_client : Pjrt.Client) :
  Pjrt.SuccessLoadFromSerializedExecutable lower dispatch (Pjrt.Success se_client)
  = match Pjrt.compile_serialize_load_execute lower dispatch se_client with
    | Pjrt.Success result => Pjrt.ValidateResult result
    | Pjrt.Failure _ =>
        Pjrt.SuccessLoadFromSerializedExecutable lower dispatch (Pjrt.Success se_client)
    end.
Proof.
  unfold Pjrt.SuccessLoadFromSerializedExecutable,
    Pjrt.compile_serialize_load_execute, Pjrt.GetXlaComputation,
    Pjrt.GetTopologyDescription.
  cbn [Pjrt.TF_ASSERT_OK_AND_ASSIGN Pjrt.and_then].
  destruct (Pjrt.Compile lower _ _ _ _) as [executable |]; [| reflexivity].
  cbn [Pjrt.TF_ASSERT_OK_AND_ASSIGN Pjrt.and_then].
  destruct (Pjrt.LoadSerialized _ _ _ _) as [loaded_executable |]; [| reflexivity].
  cbn [Pjrt.TF_ASSERT_OK_AND_ASSIGN Pjrt.and_then].
  now destruct (Pjrt.Execute dispatch _ _ _).
Qed.

Lemma eqb_list_Z_eq (l1 l2 : list Z) :
  Pjrt.eqb_list Z.eqb l1 l2 = true <-> l1 = l2.
Proof.
  revert l2. induction l1 as [| a l1 IH]; intros [| b l2]; cbn;
    try (split; [discriminate | discriminate]); [tauto |].
  rewrite andb_true_iff, Z.eqb_eq, IH.
  split; [intros [-> ->]; reflexivity | intros H; injection H; auto].
Qed.

(** X10. [ValidateResult] records no failure exactly for a result of one outer
    entry whose only buffer holds the scalar 2. *)
Lemma ValidateResult_passes (result : list (list Pjrt.PjRtBuffer)) :
  Pjrt.ValidateResult result = []
  <-> result = [[ {| Pjrt.held := Pjrt.CreateR0 2 |} ]].
Proof.
  split.
  - destruct result as [| [| [literal] [|]] [|]]; try discriminate.
    unfold Pjrt.ValidateResult. cbn.
    destruct (Pjrt.Literal_Equal (Pjrt.CreateR0 2) literal) eqn:Hequal;
      [intros _ | discriminate].
    unfold Pjrt.Literal_Equal in Hequal.
    apply andb_true_iff in Hequal as [Hdims Helems].
    apply eqb_list_Z_eq in Hdims, Helems.
    destruct literal as [dims elems]; cbn in *. now subst.
  - intros ->. reflexivity.
Qed.

(** C8. With a backend that lowers the constant program for the captured
    target and whose code computes what its source computes, and a client
    whose devices match that target: compiling [kProgram] with no client,
    serializing the executable, loading the bytes and executing with no
    arguments returns exactly one outer entry holding exactly one buffer,
    whose literal is the scalar 2; the test passes. *)
Theorem compile_serialize_load_execute_constant :
  forall (lower : Pjrt.CompileOptions -> Pjrt.HloModule -> Pjrt.TargetDescription
                  -> Pjrt.Result string)
         (dispatch : string -> list Pjrt.Literal -> Pjrt.Result (list Pjrt.Literal))
         (se_client : Pjrt.Client) (code : string),
    let target := Pjrt.CaptureTargetDescription (Pjrt.default_stream_executor se_client) in
    Pjrt.backend_correct lower dispatch ->
    lower {| Pjrt.target_config := Some target |} Pjrt.kProgram target
    = Pjrt.Success code ->
    Pjrt.target_matches target se_client = true ->
    Pjrt.compile_serialize_load_execute lower dispatch se_client
    = Pjrt.Success [[ {| Pjrt.held := Pjrt.CreateR0 2 |} ]]
    /\ Pjrt.SuccessLoadFromSerializedExecutable lower dispatch (Pjrt.Success se_client)
       = [].
Proof.
  intros lower dispatch se_client code target Hcorrect Hlower Hmatch.
  assert (Hrun : Pjrt.compile_serialize_load_execute lower dispatch se_client
                 = Pjrt.Success [[ {| Pjrt.held := Pjrt.CreateR0 2 |} ]]).
  { unfold Pjrt.compile_serialize_load_execute, Pjrt.GetXlaComputation,
      Pjrt.GetTopologyDescription, Pjrt.Compile.
    cbn [Pjrt.and_then]. fold target. rewrite Hlower. cbn [Pjrt.and_then].
    unfold Pjrt.LoadSerialized.
    rewrite DeserializeExecutable_SerializeExecutable. cbn [Pjrt.and_then].
    unfold Pjrt.Load. cbn [Pjrt.executable_target]. rewrite Hmatch.
    cbn [Pjrt.and_then].
    unfold Pjrt.Execute. cbn [Pjrt.loaded Pjrt.execute_replicas].
    unfold Pjrt.execute_replica. cbn [Pjrt.machine_code Pjrt.declared_inputs].
    cbn [length Pjrt.kProgram Pjrt.entry_parameters Nat.eqb negb map].
    rewrite (Hcorrect _ _ _ _ [] [Pjrt.CreateR0 2] Hlower) by reflexivity.
    reflexivity. }
  split; [exact Hrun |].
  rewrite test_follows_pipeline, Hrun. reflexivity.
Qed.

(** The reference backend honours the contract. *)
Lemma reference_backend_correct :
  Pjrt.backend_correct Pjrt.reference_lower Pjrt.reference_dispatch.
Proof.
  intros options program target code arguments outputs Hlower Heval.
  assert (Hcode : code = string_of_list_ascii
                          (enc Pjrt.HloInstruction_codec (Pjrt.ROOT program)))
    by (unfold Pjrt.reference_lower in Hlower; congruence).
  subst code. clear Hlower.
  unfold Pjrt.reference_dispatch.
  rewrite list_ascii_of_string_of_list_ascii.
  rewrite <- (app_nil_r (enc _ _)).
  rewrite Lawful_HloInstruction_codec.
  unfold Pjrt.evaluate in Heval.
  destruct (negb _); [discriminate |].
  destruct (Pjrt.ROOT program) as [value | number].
  - now injection Heval as <-.
  - destruct (nth_error arguments number); [| discriminate].
    now injection Heval as <-.
Qed.

Lemma aot_executable_loads_from_serialized_witness :
  exists executable,
    Pjrt.Compile Pjrt.reference_lower {| Pjrt.target_config := None |} Pjrt.kProgram
      (Pjrt.CaptureTargetDescription Examples.gpu) None
    = Pjrt.Success executable
    /\ Pjrt.LoadSerialized (Pjrt.SerializeExecutable executable) None
         Pjrt.MakeLoadOptions Examples.gpu_client
       = Pjrt.Success {| Pjrt.loaded := executable;
                         Pjrt.bound_devices := [Examples.gpu; Examples.gpu] |}.
Proof.
  destruct (aot_executable_loads_from_serialized
              Pjrt.reference_lower {| Pjrt.target_config := None |} Pjrt.kProgram
              (Pjrt.CaptureTargetDescription Examples.gpu)
              (string_of_list_ascii
                 (enc Pjrt.HloInstruction_codec (Pjrt.ROOT Pjrt.kProgram)))
              Examples.gpu_client Pjrt.MakeLoadOptions)
    as [executable [Hcompile [_ [_ Hload]]]].
  - reflexivity.
  - reflexivity.
  - exists executable. split; [exact Hcompile | exact Hload].
Defined.

Lemma compile_serialize_load_execute_constant_witness :
  Pjrt.compile_serialize_load_execute
    Pjrt.reference_lower Pjrt.reference_dispatch Examples.gpu_client
  = Pjrt.Success [[ {| Pjrt.held := Pjrt.CreateR0 2 |} ]]
  /\ Pjrt.SuccessLoadFromSerializedExecutable
       Pjrt.reference_lower Pjrt.reference_dispatch (Pjrt.Success Examples.gpu_client)
     = [].
Proof.
  apply (compile_serialize_load_execute_constant
           Pjrt.reference_lower Pjrt.reference_dispatch Examples.gpu_client
           (string_of_list_ascii
              (enc Pjrt.HloInstruction_codec (Pjrt.ROOT Pjrt.kProgram)))).
  - exact reference_backend_correct.
  - reflexivity.
  - reflexivity.
Defined.

Example LoadSerialized_examples :
  Pjrt.LoadSerialized (Pjrt.SerializeExecutable Examples.executable) None
    Pjrt.MakeLoadOptions Examples.older_gpu_client
  = Pjrt.Failure TargetIncompatible
  /\ Pjrt.LoadSerialized "not an executable" None
       Pjrt.MakeLoadOptions Examples.gpu_client
     = Pjrt.Failure MalformedPayload
  /\ Pjrt.LoadSerialized (substring 0 12 (Pjrt.SerializeExecutable Examples.executable))
       None Pjrt.MakeLoadOptions Examples.gpu_client
     = Pjrt.Failure MalformedPayload.
Proof. repeat split; vm_compute; reflexivity. Qed.

Example Execute_examples :
  let loaded_executable :=
    {| Pjrt.loaded := Examples.executable;
       Pjrt.bound_devices := Pjrt.client_devices Examples.gpu_client |} in
  Pjrt.Execute Pjrt.reference_dispatch loaded_executable
    [[ {| Pjrt.held := Pjrt.CreateR0 7 |} ]] Pjrt.MakeExecuteOptions
  = Pjrt.Failure ArgumentMismatch
  /\ Pjrt.Execute Pjrt.reference_dispatch loaded_executable
       [[]; []] Pjrt.MakeExecuteOptions
     = Pjrt.Success [[ {| Pjrt.held := Pjrt.CreateR0 2 |} ];
                     [ {| Pjrt.held := Pjrt.CreateR0 2 |} ]].
Proof. split; vm_compute; reflexivity. Qed.

Example ValidateResult_examples :
  Pjrt.ValidateResult [] = [Pjrt.Fatal "ASSERT_EQ(result.size(), 1)"]
  /\ Pjrt.ValidateResult [[]] = [Pjrt.Fatal "ASSERT_EQ(result_buffers.size(), 1)"]
  /\ Pjrt.ValidateResult [[ {| Pjrt.held := Pjrt.CreateR0 3 |} ]]
     = [Pjrt.NonFatal "EXPECT_TRUE(LiteralTestUtil::Equal)"]
  /\ Pjrt.ValidateResult [[ {| Pjrt.held := Pjrt.CreateR0 2 |} ]] = [].
Proof. repeat split. Qed.

(** * Further properties of the code *)

(** ** [FindProfilerApi] *)

Lemma FindProfilerApi_from_others (prefix rest : list Profiler.PJRT_Extension_Base) :
  (forall extension, In extension prefix ->
                     exists type, extension = Profiler.PJRT_Other_Extension type) ->
  Profiler.FindProfilerApi_from (prefix ++ rest) = Profiler.FindProfilerApi_from rest.
Proof.
  induction prefix as [| extension prefix IH]; intros Hothers; cbn; [reflexivity |].
  destruct (Hothers extension (or_introl eq_refl)) as [type ->].
  apply IH. intros e He. apply Hothers. now right.
Qed.

(** X1. [FindProfilerApi] returns the [profiler_api] pointer of the first
    profiler extension of the chain, null or not: the extensions of other
    types before it are skipped and whatever follows it is not looked
    at. *)
Theorem FindProfilerApi_first_profiler_extension :
  forall (prefix rest : list Profiler.PJRT_Extension_Base)
         (profiler_api : option Profiler.PLUGIN_Profiler_Api),
    (forall extension, In extension prefix ->
                       exists type, extension = Profiler.PJRT_Other_Extension type) ->
    Profiler.FindProfilerApi
      {| Profiler.extension_start :=
           prefix ++ Profiler.PJRT_Profiler_Extension profiler_api :: rest |}
    = profiler_api.
Proof.
  intros prefix rest profiler_api Hothers.
  unfold Profiler.FindProfilerApi. cbn [Profiler.extension_start].
  now rewrite FindProfilerApi_from_others.
Qed.

Lemma FindProfilerApi_first_profiler_extension_witness :
  Profiler.FindProfilerApi
    {| Profiler.extension_start :=
         [Profiler.PJRT_Other_Extension 0%N; Profiler.PJRT_Other_Extension 3%N]
         ++ Profiler.PJRT_Profiler_Extension (Some 48879%N)
            :: [Profiler.PJRT_Profiler_Extension (Some 51966%N)] |}
  = Some 48879%N.
Proof.
  apply FindProfilerApi_first_profiler_extension.
  intros extension [<- | [<- | []]]; eauto.
Defined.

(** X2. A pointer that [FindProfilerApi] returns is the [profiler_api] of
    a profiler extension of the chain; for a chain with no profiler
    extension, the empty chain included, it returns the null pointer. *)
Theorem FindProfilerApi_sound :
  forall (pjrt_api : Profiler.PJRT_Api),
    (forall profiler_api,
        Profiler.FindProfilerApi pjrt_api = Some profiler_api ->
        In (Profiler.PJRT_Profiler_Extension (Some profiler_api))
           (Profiler.extension_start pjrt_api))
    /\ ((forall extension, In extension (Profiler.extension_start pjrt_api) ->
                           exists type, extension = Profiler.PJRT_Other_Extension type) ->
        Profiler.FindProfilerApi pjrt_api = None).
Proof.
  intros [chain]. unfold Profiler.FindProfilerApi. cbn [Profiler.extension_start].
  split.
  - intros profiler_api.
    induction chain as [| [api | type] chain IH]; cbn; intros Hfound.
    + discriminate.
    + left. now rewrite Hfound.
    + right. now apply IH.
  - intros Hothers.
    rewrite <- (app_nil_r chain). now rewrite FindProfilerApi_from_others.
Qed.

(** ** [register_plugin_profiler] *)

Lemma register_plugin_profiler_step (c_api : Profiler.capsule) (w : Profiler.World) :
  Profiler.name c_api <> None ->
  exists completion,
    completion <> Profiler.Undefined
    /\ Profiler.register_plugin_profiler c_api w
       = (completion,
          if is_pjrt_c_api c_api then
            {| Profiler.data_reads := Profiler.data_reads w ++ [c_api];
               Profiler.profiler_factories :=
                 Profiler.profiler_factories w
                 ++ [Profiler.PluginTracerFactory
                       (Profiler.FindProfilerApi (Profiler.data c_api))] |}
          else w).
Proof.
  intros Hnamed.
  unfold Profiler.register_plugin_profiler, is_pjrt_c_api.
  destruct (Profiler.name c_api) as [text |]; [| contradiction].
  cbn [Profiler.seq Profiler.string_view].
  destruct (String.eqb text "pjrt_c_api"); cbn.
  - exists (Profiler.Returned tt). split; [discriminate | reflexivity].
  - eexists. split; [| reflexivity]. discriminate.
Qed.

(** X3. After any sequence of calls of [register_plugin_profiler] with
    capsules that have names, the factories registered by the sequence are
    those of the capsules named ["pjrt_c_api"], one each and in call
    order, after the factories that were there before; the data pointers
    read are those of the same capsules.  A rejected call leaves no
    trace. *)
Theorem register_each_factories :
  forall (capsules : list Profiler.capsule) (w : Profiler.World),
    (forall c_api, In c_api capsules -> Profiler.name c_api <> None) ->
    exists w',
      register_each capsules w = Some w'
      /\ Profiler.profiler_factories w'
         = Profiler.profiler_factories w
           ++ map (fun c_api => Profiler.PluginTracerFactory
                                  (Profiler.FindProfilerApi (Profiler.data c_api)))
                  (filter is_pjrt_c_api capsules)
      /\ Profiler.data_reads w'
         = Profiler.data_reads w ++ filter is_pjrt_c_api capsules.
Proof.
  induction capsules as [| c_api capsules IH]; intros w Hnamed;
    cbn [register_each filter map].
  - exists w. now rewrite !app_nil_r.
  - destruct (register_plugin_profiler_step c_api w (Hnamed c_api (or_introl eq_refl)))
      as [completion [Hdefined Hstep]].
    rewrite Hstep.
    set (w1 := if is_pjrt_c_api c_api then _ else _) in *.
    destruct (IH w1 (fun c Hc => Hnamed c (or_intror Hc)))
      as [w' [Hrun [Hfactories Hreads]]].
    exists w'. split.
    + now destruct completion.
    + rewrite Hfactories, Hreads. subst w1.
      destruct (is_pjrt_c_api c_api);
        cbn [Profiler.profiler_factories Profiler.data_reads map];
        [| split; reflexivity].
      now rewrite <- !app_assoc.
Qed.

Lemma register_each_factories_witness :
  exists w',
    register_each
      [Examples.pjrt_capsule; Examples.other_capsule; Examples.pjrt_capsule]
      Examples.world
    = Some w'
    /\ Profiler.profiler_factories w'
       = Profiler.profiler_factories Examples.world
         ++ map (fun c_api => Profiler.PluginTracerFactory
                                (Profiler.FindProfilerApi (Profiler.data c_api)))
                (filter is_pjrt_c_api
                   [Examples.pjrt_capsule; Examples.other_capsule;
                    Examples.pjrt_capsule])
    /\ Profiler.data_reads w'
       = Profiler.data_reads Examples.world
         ++ filter is_pjrt_c_api
              [Examples.pjrt_capsule; Examples.other_capsule; Examples.pjrt_capsule].
Proof.
  apply register_each_factories.
  intros c_api [<- | [<- | [<- | []]]]; discriminate.
Defined.

Example register_each_examples :
  register_each [Examples.pjrt_capsule; Examples.other_capsule] Examples.world
  = Some {| Profiler.data_reads := [Examples.pjrt_capsule; Examples.pjrt_capsule];
            Profiler.profiler_factories :=
              [Profiler.PluginTracerFactory (Some 48879%N);
               Profiler.PluginTracerFactory (Some 48879%N)] |}
  /\ register_each [Examples.pjrt_capsule; Examples.nameless_capsule;
                    Examples.pjrt_capsule] Examples.world
     = None.
Proof. split; reflexivity. Qed.

(** X4. [register_plugin_profiler] does not check what [FindProfilerApi]
    found: for a capsule named ["pjrt_c_api"] whose extension chain has no
    profiler extension, it returns normally and registers a factory that
    captures the null pointer. *)
Theorem register_plugin_profiler_without_profiler_extension :
  forall (c_api : Profiler.capsule) (w : Profiler.World),
    Profiler.name c_api = Some "pjrt_c_api" ->
    (forall extension,
        In extension (Profiler.extension_start (Profiler.data c_api)) ->
        exists type, extension = Profiler.PJRT_Other_Extension type) ->
    Profiler.register_plugin_profiler c_api w
    = (Profiler.Returned tt,
       {| Profiler.data_reads := Profiler.data_reads w ++ [c_api];
          Profiler.profiler_factories :=
            Profiler.profiler_factories w ++ [Profiler.PluginTracerFactory None] |}).
Proof.
  intros c_api w Hname Hothers.
  unfold Profiler.register_plugin_profiler. rewrite Hname. cbn.
  unfold Profiler.seq, Profiler.read_data, Profiler.RegisterProfilerFactory. cbn.
  unfold Profiler.FindProfilerApi.
  rewrite <- (app_nil_r (Profiler.extension_start _)).
  now rewrite FindProfilerApi_from_others.
Qed.

(** A capsule of a plugin that has a custom-call and a custom-partitioner
    extension (the tags 0 and 2) and no profiler extension. *)
Lemma register_plugin_profiler_without_profiler_extension_witness :
  Profiler.register_plugin_profiler
    {| Profiler.name := Some "pjrt_c_api";
       Profiler.data :=
         {| Profiler.extension_start :=
              [Profiler.PJRT_Other_Extension 0%N;
               Profiler.PJRT_Other_Extension 2%N] |} |}
    Examples.world
  = (Profiler.Returned tt,
     {| Profiler.data_reads :=
          Profiler.data_reads Examples.world
          ++ [ {| Profiler.name := Some "pjrt_c_api";
                  Profiler.data :=
                    {| Profiler.extension_start :=
                         [Profiler.PJRT_Other_Extension 0%N;
                          Profiler.PJRT_Other_Extension 2%N] |} |} ];
        Profiler.profiler_factories :=
          Profiler.profiler_factories Examples.world
          ++ [Profiler.PluginTracerFactory None] |}).
Proof.
  apply register_plugin_profiler_without_profiler_extension.
  - reflexivity.
  - intros extension [<- | [<- | []]]; eauto.
Defined.

(** ** The TraceMe wrapper *)

Lemma string_append_assoc (a b c : string) :
  ((a ++ b) ++ c)%string = (a ++ b ++ c)%string.
Proof.
  induction a as [| ch a IH]; cbn; [reflexivity | now rewrite IH].
Qed.

Lemma string_append_nil_r (a : string) : (a ++ "")%string = a.
Proof.
  induction a as [| ch a IH]; cbn; [reflexivity | now rewrite IH].
Qed.

(** Both sides are the same characters, grouped differently. *)
Ltac same_text :=
  repeat first [ rewrite string_append_assoc | progress cbn [String.append] ];
  reflexivity.

Lemma set_back_push_back (s : string) (c c' : ascii) :
  TraceMeWrapper.set_back (TraceMeWrapper.push_back s c) c'
  = TraceMeWrapper.push_back s c'.
Proof.
  unfold TraceMeWrapper.push_back.
  induction s as [| a s IH]; [reflexivity |].
  cbn [String.append TraceMeWrapper.set_back].
  rewrite IH. now destruct s.
Qed.

Lemma entries_nonempty (kw : TraceMeWrapper.kwargs) (l : list string) :
  TraceMeWrapper.entries kw = Some l -> kw <> [] -> l <> [].
Proof.
  destruct kw as [| [key value] rest]; [easy |]. cbn.
  destruct (TraceMeWrapper.EncodePyObject value); [| discriminate].
  destruct (TraceMeWrapper.entries rest); [| discriminate].
  intros [= <-] _. discriminate.
Qed.

(** The loop leaves the entries joined by commas, with one more comma at
    the end. *)
Lemma AppendMetadata_loop_entries (kw : TraceMeWrapper.kwargs) :
  forall (name : string) (l : list string),
    TraceMeWrapper.entries kw = Some l ->
    kw <> [] ->
    TraceMeWrapper.AppendMetadata_loop name kw
    = Some (TraceMeWrapper.push_back (name ++ String.concat "," l) ",").
Proof.
  unfold TraceMeWrapper.push_back.
  induction kw as [| [key value] rest IH]; intros name l Hentries Hne; [easy |].
  cbn in Hentries |- *.
  destruct (TraceMeWrapper.EncodePyObject value) as [encoded |]; [| discriminate].
  destruct (TraceMeWrapper.entries rest) as [l' |] eqn:Hrest; [| discriminate].
  injection Hentries as <-.
  destruct rest as [| next rest'].
  - cbn in Hrest. injection Hrest as <-. cbn. f_equal. same_text.
  - assert (Hl' : l' <> []) by (now apply (entries_nonempty (next :: rest'))).
    rewrite (IH _ l' eq_refl) by discriminate.
    destruct l' as [| e l']; [contradiction |].
    cbn [String.concat]. f_equal. same_text.
Qed.

Lemma AppendMetadata_loop_raises (kw : TraceMeWrapper.kwargs) :
  forall (name : string),
    TraceMeWrapper.entries kw = None ->
    TraceMeWrapper.AppendMetadata_loop name kw = None.
Proof.
  induction kw as [| [key value] rest IH]; intros name; cbn; [discriminate |].
  destruct (TraceMeWrapper.EncodePyObject value); [| reflexivity].
  destruct (TraceMeWrapper.entries rest); [discriminate |].
  intros _. now apply IH.
Qed.

Lemma AppendMetadata_entries (name : string) (kw : TraceMeWrapper.kwargs) :
  TraceMeWrapper.AppendMetadata name kw
  = match TraceMeWrapper.entries kw with
    | None => None
    | Some [] => Some (name ++ "#")%string
    | Some l => Some (name ++ "#" ++ String.concat "," l ++ "#")%string
    end.
Proof.
  unfold TraceMeWrapper.AppendMetadata.
  destruct (TraceMeWrapper.entries kw) as [l |] eqn:Hentries.
  - destruct kw as [| entry rest].
    + cbn in Hentries. injection Hentries as <-.
      cbn [TraceMeWrapper.AppendMetadata_loop]. now rewrite set_back_push_back.
    + rewrite (AppendMetadata_loop_entries _ _ l Hentries) by discriminate.
      rewrite set_back_push_back.
      assert (Hl : l <> []) by (now apply (entries_nonempty (entry :: rest))).
      destruct l as [| e l]; [contradiction |].
      unfold TraceMeWrapper.push_back. f_equal. same_text.
  - now rewrite AppendMetadata_loop_raises.
Qed.




(** X7. [AppendMetadata] escapes nothing: a value whose text holds a comma
    and an equals sign gives the same name as two keywords would. *)
Theorem AppendMetadata_does_not_escape :
  forall (name key1 value1 key2 value2 : string),
    TraceMeWrapper.AppendMetadata name
      [(key1, TraceMeWrapper.PyOther (Some (value1 ++ "," ++ key2 ++ "=" ++ value2)%string))]
    = TraceMeWrapper.AppendMetadata name
        [(key1, TraceMeWrapper.PyOther (Some value1));
         (key2, TraceMeWrapper.PyOther (Some value2))].
Proof.
  intros name key1 value1 key2 value2.
  rewrite !AppendMetadata_entries. cbn. f_equal. same_text.
Qed.

(** X8. When the [str()] of the value of some keyword raises,
    [AppendMetadata] is left by the exception, and so is the constructor's
    name generator. *)
Theorem AppendMetadata_raises :
  forall (name key : string) (kw : TraceMeWrapper.kwargs),
    In (key, TraceMeWrapper.PyOther None) kw ->
    TraceMeWrapper.AppendMetadata name kw = None
    /\ TraceMeWrapper.name_and_metadata name kw = None.
Proof.
  intros name key kw Hin.
  assert (Hentries : TraceMeWrapper.entries kw = None).
  { induction kw as [| [k v] rest IH]; [easy |].
    cbn. destruct Hin as [[= -> ->] | Hin]; [reflexivity |].
    rewrite (IH Hin). now destruct (TraceMeWrapper.EncodePyObject v). }
  assert (Happend : TraceMeWrapper.AppendMetadata name kw = None)
    by (now rewrite AppendMetadata_entries, Hentries).
  split; [exact Happend |].
  unfold TraceMeWrapper.name_and_metadata.
  destruct kw; [easy |]. exact Happend.
Qed.

Lemma AppendMetadata_raises_witness :
  TraceMeWrapper.AppendMetadata "train_step"
    [("step_num", TraceMeWrapper.PyOther (Some "12"));
     ("model", TraceMeWrapper.PyOther None)] = None
  /\ TraceMeWrapper.name_and_metadata "train_step"
       [("step_num", TraceMeWrapper.PyOther (Some "12"));
        ("model", TraceMeWrapper.PyOther None)] = None.
Proof.
  apply (AppendMetadata_raises "train_step" "model").
  right. left. reflexivity.
Defined.

(** ** The profiler session bindings *)

Section ProfilerSession_Properties.

Variable XSpace : Type.
Variable SerializeAsString : XSpace -> string.
Variable ParseFromString : string -> bool * XSpace.
Variable World : Type.
Variable Session : Type.
Variable CollectData :
  Session -> World -> (ProfilerSessionWrapper.Status * XSpace) * World.
Variable ExportToTensorBoard :
  XSpace -> string -> bool -> World -> ProfilerSessionWrapper.Status * World.

(** The law of the generated message class: a serialized message parses,
    and parses to itself. *)
Hypothesis ParseFromString_SerializeAsString :
  forall xspace, ParseFromString (SerializeAsString xspace) = (true, xspace).

(** X9. [stop] followed by [export] of the bytes it returned does what
    [stop_and_export] does: the same exception or normal return and the
    same world afterwards, for every session, directory and world. *)
Theorem stop_then_export_is_stop_and_export :
  forall (sess : Session) (tensorboard_dir : string) (w : World),
    ProfilerSessionWrapper.seq
      (ProfilerSessionWrapper.stop SerializeAsString CollectData sess)
      (fun xspace =>
         ProfilerSessionWrapper.export ParseFromString ExportToTensorBoard
           sess xspace tensorboard_dir)
      w
    = ProfilerSessionWrapper.stop_and_export CollectData ExportToTensorBoard
        sess tensorboard_dir w.
Proof.
  intros sess tensorboard_dir w.
  unfold ProfilerSessionWrapper.stop, ProfilerSessionWrapper.export,
    ProfilerSessionWrapper.stop_and_export, ProfilerSessionWrapper.seq,
    ProfilerSessionWrapper.call, ProfilerSessionWrapper.ret,
    ProfilerSessionWrapper.ThrowIfError.
  destruct (CollectData sess w) as [[[what |] xspace] w']; cbn [fst snd].
  - reflexivity.
  - now rewrite ParseFromString_SerializeAsString.
Qed.

End ProfilerSession_Properties.

Lemma SessionExamples_parse_serialize (xspace : SessionExamples.XSpace) :
  SessionExamples.ParseFromString (SessionExamples.SerializeAsString xspace)
  = (true, xspace).
Proof.
  unfold SessionExamples.ParseFromString, SessionExamples.SerializeAsString.
  rewrite list_ascii_of_string_of_list_ascii.
  rewrite <- (app_nil_r (enc _ xspace)).
  now rewrite (Lawful_repeated text Lawful_text).
Qed.

Lemma stop_then_export_is_stop_and_export_witness :
  ProfilerSessionWrapper.seq
    (ProfilerSessionWrapper.stop SessionExamples.SerializeAsString
       SessionExamples.CollectData 0)
    (fun xspace =>
       ProfilerSessionWrapper.export SessionExamples.ParseFromString
         SessionExamples.ExportToTensorBoard 0 xspace "/tmp/tensorboard")
    SessionExamples.world
  = ProfilerSessionWrapper.stop_and_export SessionExamples.CollectData
      SessionExamples.ExportToTensorBoard 0 "/tmp/tensorboard" SessionExamples.world.
Proof.
  apply (stop_then_export_is_stop_and_export
           SessionExamples.XSpace SessionExamples.SerializeAsString
           SessionExamples.ParseFromString SessionExamples.World nat
           SessionExamples.CollectData SessionExamples.ExportToTensorBoard
           SessionExamples_parse_serialize).
Defined.

Example stop_and_export_examples :
  ProfilerSessionWrapper.stop_and_export SessionExamples.CollectData
    SessionExamples.ExportToTensorBoard 0 "/tmp/tensorboard" SessionExamples.world
  = (Profiler.Returned tt,
     {| SessionExamples.traced := [None; None];
        SessionExamples.written :=
          [("/tmp/tensorboard", ["/host:CPU"; "/device:GPU:0"])] |})
  /\ ProfilerSessionWrapper.stop_and_export SessionExamples.CollectData
       SessionExamples.ExportToTensorBoard 1 "/tmp/tensorboard" SessionExamples.world
     = (Profiler.Thrown (Profiler.XlaRuntimeError "No profiling session is active."),
        SessionExamples.world)
  /\ ProfilerSessionWrapper.export SessionExamples.ParseFromString
       SessionExamples.ExportToTensorBoard 0 "not an xspace" "/tmp/tensorboard"
       SessionExamples.world
     = (Profiler.Returned tt,
        {| SessionExamples.traced := SessionExamples.traced SessionExamples.world;
           SessionExamples.written := [("/tmp/tensorboard", [])] |}).
Proof. repeat split. Qed.

(** ** The serdes, further *)

Section IoCallableProgramSerDes_More.

Variable NDEBUG : bool.
Variable Device : Type.
Variable Id : Device -> DeviceId.
Variable SerializeAsString : IoCallableProgramProto -> string.
Variable ParseFromString : string -> option IoCallableProgramProto.



(** X11. A program that [Deserialize] returns has the type, name and
    program text of the parsed message, and as many devices, input specs
    and output specs as the message has. *)
Theorem Deserialize_keeps_message_fields :
  forall (serialized : string) (proto : IoCallableProgramProto)
         (lookup_device : LookupDeviceFunc Device)
         (program : IoCallableProgram Device),
    ParseFromString serialized = Some proto ->
    IoCallableProgramSerDes_Deserialize NDEBUG ParseFromString serialized
      (Some (DeserializeProgramOptions lookup_device))
    = Returns (Ok (AnIoCallableProgram program)) ->
    type program = proto_type proto
    /\ name program = proto_name proto
    /\ serialized_program_text program = proto_serialized_program_text proto
    /\ length (devices program) = length (device_ids (proto_devices proto))
    /\ length (input_specs program) = length (proto_input_specs proto)
    /\ length (output_specs program) = length (proto_output_specs proto).
Proof.
  intros serialized proto lookup_device program Hparse Hok.
  pose proof (Deserialize_resolution NDEBUG Device ParseFromString
                serialized proto lookup_device Hparse) as H.
  destruct (first_unresolved lookup_device (referenced_device_ids proto)).
  - rewrite H in Hok. discriminate.
  - destruct H as [program' [Heq [Ht [Hn [Hp [Hd [Hi Ho]]]]]]].
    rewrite Heq in Hok. injection Hok as <-.
    repeat split; try assumption; symmetry;
      eapply Forall2_length; eassumption.
Qed.


End IoCallableProgramSerDes_More.


Lemma Deserialize_keeps_message_fields_witness :
  type Examples.program = proto_type Examples.proto
  /\ name Examples.program = proto_name Examples.proto
  /\ serialized_program_text Examples.program
     = proto_serialized_program_text Examples.proto
  /\ length (devices Examples.program)
     = length (device_ids (proto_devices Examples.proto))
  /\ length (input_specs Examples.program)
     = length (proto_input_specs Examples.proto)
  /\ length (output_specs Examples.program)
     = length (proto_output_specs Examples.proto).
Proof.
  apply (Deserialize_keeps_message_fields false
           DeviceHandle reference_ParseFromString
           Examples.serialized Examples.proto
           (lookup_in [Examples.device_A; Examples.device_B]) Examples.program).
  - apply reference_parse_serialize.
  - vm_compute. reflexivity.
Defined.

